(** * ImageDupeFinder: a shallow embedding of [imagefinder.py]

    The development follows the source file top to bottom:
    - exceptions and results (Python's [raise] / [try ... except Exception]);
    - the perceptual hash as the program sees it: an opaque value with a
      subtraction operator ([hash1 - hash2], line 26);
    - the greedy clusterer (lines 63-82) over an insertion-ordered dict,
      a [defaultdict(list)] and a [set];
    - the world the script runs in (files, directories, stdin, stdout) and a
      small state-and-error monad over it;
    - extraction (lines 9-21, 51-61), the deletion plan and the deletion
      loop (lines 90-150), and the command line (lines 153-203). *)

From Stdlib Require Import ZArith Lia Ascii.
From stdpp Require Import base tactics option list strings gmap sets.

Set Warnings "-clear-no-such-hyp".

Local Open Scope Z_scope.

(** ** Exceptions and results *)

(** The subclasses of Python's [Exception] the script can meet. [sys.exit]
    raises [SystemExit], which is not an [Exception]; it is kept apart, in
    [exit_status] below. *)
Inductive exn : Type :=
  | OSError (msg : string)
  | ValueError (msg : string)
  | EOFError
  | UnidentifiedImageError (msg : string)
  | IncompatibleFingerprintError.

Inductive result (A : Type) : Type :=
  | Ok (a : A)
  | Raise (e : exn).
Arguments Ok {A} a.
Arguments Raise {A} e.

Definition rbind {A B} (r : result A) (k : A → result B) : result B :=
  match r with
  | Ok a => k a
  | Raise e => Raise e
  end.

Declare Scope result_scope.
Delimit Scope result_scope with result.
Notation "x <- c ;; k" := (rbind c (λ x, k))
  (at level 100, c at next level, right associativity) : result_scope.

(** ** Hashes and the distance metric *)

(** [hash1 - hash2]: Python dispatches the operator to the operand's
    [__sub__]; the script itself only relies on the operator being there and
    on its value being comparable with the integer threshold. *)
Class HashSub (hash : Type) : Type := {
  hash_sub : hash → hash → result Z
}.

(** Lines 24-26. *)
Definition hamming_distance {hash : Type} {sub : HashSub hash}
    (hash1 hash2 : hash) : result Z :=
  hash_sub hash1 hash2.

(** The fingerprint of the [imagehash] package: its bits, flattened in
    row-major order. *)
Definition ImageHash : Type := list bool.

Fixpoint count_nonzero_ne (a b : list bool) : Z :=
  match a, b with
  | x :: a', y :: b' => (if xorb x y then 1 else 0) + count_nonzero_ne a' b'
  | _, _ => 0
  end.

(** Modelled from the spec: the subtraction operator of the fingerprint type
    ([ImageHash.__sub__] belongs to the [imagehash] package, which is not part
    of the source tree).  Spec 4.2: for two fingerprints of equal bit-length
    the result is the count of differing bit positions; it fails with
    [IncompatibleFingerprintError] if the bit-lengths differ. *)
Definition ImageHash_sub (a b : ImageHash) : result Z :=
  if decide (length a = length b) then Ok (count_nonzero_ne a b)
  else Raise IncompatibleFingerprintError.

#[export] Instance ImageHash_HashSub : HashSub ImageHash :=
  {| hash_sub := ImageHash_sub |}.

(** The positions at which two bit vectors differ, read index by index. *)
Definition differing_positions (a b : list bool) : list nat :=
  filter (λ i, a !! i ≠ b !! i) (seq 0 (length a)).

(** ** Insertion-ordered dictionaries

    Python dicts keep their keys in insertion order, and the script relies on
    it ([file_hashes.items()], [duplicates.items()]); they are association
    lists here, kept free of repeated keys by the two writers below. *)
Abbreviation dict V := (list (string * V)).

(** [d[k] = v]: an existing key keeps its position. *)
Fixpoint dict_setitem {V} (d : dict V) (k : string) (v : V) : dict V :=
  match d with
  | [] => [(k, v)]
  | (k', v') :: d' =>
      if decide (k' = k) then (k, v) :: d' else (k', v') :: dict_setitem d' k v
  end.

(** [d[k].append(v)] on a [defaultdict(list)]: a missing key is created, at
    the end, with the one-element list. *)
Fixpoint dd_append {V} (d : dict (list V)) (k : string) (v : V) : dict (list V) :=
  match d with
  | [] => [(k, [v])]
  | (k', l) :: d' =>
      if decide (k' = k) then (k', l ++ [v]) :: d' else (k', l) :: dd_append d' k v
  end.

(** The clusters of a result: every key is an original, every path in its
    list is one of its duplicates. *)
Definition originals (d : dict (list (string * Z))) : list string := d.*1.
Definition duplicate_paths (d : dict (list (string * Z))) : list string :=
  mjoin ((λ c, (c.2).*1) <$> d).

(** ** The clusterer (lines 63-82) *)

(** [compared] is a ghost field: the calls of [hamming_distance] made so far
    (line 76), oldest first.  The script keeps no such list; it is here so that
    statements about which pairs are compared can be written down. *)
Record cluster_state : Type := {
  duplicates : dict (list (string * Z));
  processed : gset string;
  compared : list (string * string)
}.

Definition cluster_init : cluster_state :=
  {| duplicates := []; processed := ∅; compared := [] |}.

Section clusterer.
Context {hash : Type} {sub : HashSub hash}.
Variable similarity_threshold : Z.

(** Lines 72-80: the inner loop over [file_list[i + 1 :]]. *)
Fixpoint scan_later (file1 : string) (hash1 : hash)
    (later : list (string * hash)) (st : cluster_state) : result cluster_state :=
  match later with
  | [] => Ok st
  | (file2, hash2) :: later' =>
      if decide (file2 ∈ processed st) then scan_later file1 hash1 later' st
      else
        (distance <- hamming_distance hash1 hash2 ;;
         let called := compared st ++ [(file1, file2)] in
         if decide (distance ≤ similarity_threshold) then
           scan_later file1 hash1 later'
             {| duplicates := dd_append (duplicates st) file1 (file2, distance);
                processed := {[file2]} ∪ processed st;
                compared := called |}
         else
           scan_later file1 hash1 later'
             {| duplicates := duplicates st;
                processed := processed st;
                compared := called |})%result
  end.

(** Lines 68-80: the outer loop; the slice [file_list[i + 1 :]] of the record
    at hand is the tail of the list still to be visited. *)
Fixpoint scan_all (file_list : list (string * hash)) (st : cluster_state)
    : result cluster_state :=
  match file_list with
  | [] => Ok st
  | (file1, hash1) :: later =>
      if decide (file1 ∈ processed st) then scan_all later st
      else (st' <- scan_later file1 hash1 later st ;; scan_all later st')%result
  end.

(** Lines 63-82 on the records of [file_hashes]. *)
Definition cluster (file_list : list (string * hash)) : result cluster_state :=
  scan_all file_list cluster_init.
End clusterer.

(** ** The world of the script *)

(** What the script writes to standard output, one constructor per [print]
    (the usage text of lines 155-168 is one event, and [input]'s prompt is
    the event [Prompt]).  Line 150 prints the total as megabytes with two
    decimals; [TotalSpaceFreed] carries [total_size_freed] itself, in bytes. *)
Inductive event : Type :=
  | ErrorProcessing (image_path : string) (e : exn)
  | FoundImageFiles (n : nat)
  | ProcessingProgress (i n : nat)
  | SuccessfullyProcessed (n : nat)
  | NoDuplicatesFound
  | FoundDuplicates (total groups : nat)
  | DuplicateGroupsHeader
  | RuleDashes
  | RuleEquals
  | OriginalLine (original : string)
  | OriginalSize (bytes : Z)
  | DuplicatesCount (n : nat)
  | DupePath (dupe_path : string)
  | DupeSize (bytes : Z)
  | DupeDistance (distance : Z)
  | Prompt (n : nat)
  | DeletionCancelled
  | Deleted (file_path : string)
  | ErrorDeleting (file_path : string) (e : exn)
  | SuccessfullyDeleted (deleted_count : nat)
  | TotalSpaceFreed (total_size_freed : Z)
  | Usage
  | FolderDoesNotExist (folder_path : string)
  | NotADirectory (folder_path : string)
  | InvalidThresholdWarning (arg : string)
  | ScanningFolder (folder_path : string)
  | SimilarityThreshold (similarity_threshold : Z)
  | Mode (interactive : bool).

(** A regular file: its size, and whether the process may unlink it. *)
Record fnode : Type := { st_size : Z; removable : bool }.

Record world : Type := {
  files : gmap string fnode;
  dirs : gset string;
  dir_size : string → Z;
  stdin : list string;
  stdout : list event
}.

(** State over the world, with exceptions; the world reached when an
    exception is raised is kept, as side effects are in Python. *)
Definition M (A : Type) : Type := world → result A * world.

Definition ret {A} (a : A) : M A := λ w, (Ok a, w).

Definition bind {A B} (m : M A) (k : A → M B) : M B :=
  λ w, match m w with
       | (Ok a, w') => k a w'
       | (Raise e, w') => (Raise e, w')
       end.

Definition lift {A} (r : result A) : M A := λ w, (r, w).

(** [try: body except Exception as e: handler]. *)
Definition try_except {A} (body : M A) (handler : exn → M A) : M A :=
  λ w, match body w with
       | (Ok a, w') => (Ok a, w')
       | (Raise e, w') => handler e w'
       end.

Declare Scope world_scope.
Delimit Scope world_scope with world.
Notation "x <- c ;; k" := (bind c (λ x, k))
  (at level 100, c at next level, right associativity) : world_scope.
Notation "c ;; k" := (bind c (λ _, k))
  (at level 100, right associativity) : world_scope.

Definition print (ev : event) : M unit :=
  λ w, (Ok tt,
        {| files := files w; dirs := dirs w; dir_size := dir_size w;
           stdin := stdin w; stdout := stdout w ++ [ev] |}).

(** [input(prompt)]: the prompt is written, one line is read. *)
Definition input (prompt : event) : M string :=
  λ w, match stdin w with
       | [] =>
           (Raise EOFError,
            {| files := files w; dirs := dirs w; dir_size := dir_size w;
               stdin := []; stdout := stdout w ++ [prompt] |})
       | line :: rest =>
           (Ok line,
            {| files := files w; dirs := dirs w; dir_size := dir_size w;
               stdin := rest; stdout := stdout w ++ [prompt] |})
       end.

(** Lines 85-87, [os.path.getsize]: the size of a regular file, the size the
    file system gives for a directory, and an [OSError] for a path that is
    neither. *)
Definition get_file_size (file_path : string) : M Z :=
  λ w, match files w !! file_path with
       | Some f => (Ok (st_size f), w)
       | None =>
           if decide (file_path ∈ dirs w) then (Ok (dir_size w file_path), w)
           else (Raise (OSError file_path), w)
       end.

(** [os.remove]: fails on a missing file, on a directory and on a file that
    may not be unlinked. *)
Definition os_remove (file_path : string) : M unit :=
  λ w, match files w !! file_path with
       | Some f =>
           if removable f then
             (Ok tt,
              {| files := delete file_path (files w); dirs := dirs w;
                 dir_size := dir_size w; stdin := stdin w;
                 stdout := stdout w |})
           else (Raise (OSError file_path), w)
       | None => (Raise (OSError file_path), w)
       end.

Definition os_path_isdir (w : world) (path : string) : bool :=
  bool_decide (path ∈ dirs w).

Definition os_path_exists (w : world) (path : string) : bool :=
  bool_decide (path ∈ dirs w) || bool_decide (is_Some (files w !! path)).

(** ** Strings: [str.strip], [str.lower], [int]

    A Python string is held as the bytes of its UTF-8 encoding.  [strip]
    removes the white space of Unicode from both ends, as [str.strip] does.
    [lower] changes the ASCII letters only, which is all the script can
    observe: it compares the result with ["yes"], ["y"] and the seven
    extensions, and the only characters outside ASCII whose lower-case form
    holds an ASCII letter are U+212A (k) and U+0130 (i, then U+0307), which
    make up none of these words. *)

(** [Py_UNICODE_ISSPACE]: the code points that [str.strip] removes. *)
Definition Py_UNICODE_ISSPACE (ch : N) : bool :=
  bool_decide
    (ch ∈ [0x09; 0x0a; 0x0b; 0x0c; 0x0d; 0x1c; 0x1d; 0x1e; 0x1f; 0x20;
           0x85; 0xa0; 0x1680; 0x2000; 0x2001; 0x2002; 0x2003; 0x2004;
           0x2005; 0x2006; 0x2007; 0x2008; 0x2009; 0x200a; 0x2028; 0x2029;
           0x202f; 0x205f; 0x3000]%N).

(** The six bits that a continuation byte of UTF-8 carries. *)
Definition continuation (c : ascii) : option N :=
  let b := N_of_ascii c in
  if ((0x80 <=? b) && (b <? 0xc0))%N then Some (b - 0x80)%N else None.

(** The code point that two bytes, and three bytes, encode. *)
Definition utf8_2 (c1 c2 : ascii) : option N :=
  let b1 := N_of_ascii c1 in
  if ((0xc2 <=? b1) && (b1 <? 0xe0))%N
  then t2 ← continuation c2; Some ((b1 - 0xc0) * 64 + t2)%N
  else None.

Definition utf8_3 (c1 c2 c3 : ascii) : option N :=
  let b1 := N_of_ascii c1 in
  if ((0xe0 <=? b1) && (b1 <? 0xf0))%N
  then t2 ← continuation c2; t3 ← continuation c3;
       Some (((b1 - 0xe0) * 64 + t2) * 64 + t3)%N
  else None.

Definition is_space (c : ascii) : bool :=
  (N_of_ascii c <? 0x80)%N && Py_UNICODE_ISSPACE (N_of_ascii c).

Definition is_space_2 (c1 c2 : ascii) : bool :=
  from_option Py_UNICODE_ISSPACE false (utf8_2 c1 c2).

Definition is_space_3 (c1 c2 c3 : ascii) : bool :=
  from_option Py_UNICODE_ISSPACE false (utf8_3 c1 c2 c3).

(** The white space at the head of [s] removed: one, two or three bytes at
    a time (no white space takes four).  With [backwards] the string is read
    from its last byte, so that the bytes of a character come in reverse. *)
Fixpoint lstrip (backwards : bool) (s : string) : string :=
  match s with
  | EmptyString => EmptyString
  | String c1 s1 =>
      if is_space c1 then lstrip backwards s1
      else
        match s1 with
        | EmptyString => s
        | String c2 s2 =>
            if (if backwards then is_space_2 c2 c1 else is_space_2 c1 c2)
            then lstrip backwards s2
            else
              match s2 with
              | EmptyString => s
              | String c3 s3 =>
                  if (if backwards then is_space_3 c3 c2 c1
                      else is_space_3 c1 c2 c3)
                  then lstrip backwards s3
                  else s
              end
        end
  end.

Definition strip (s : string) : string :=
  String.rev (lstrip true (String.rev (lstrip false s))).

Definition lower_ascii (c : ascii) : ascii :=
  let n := N_of_ascii c in
  if ((65 <=? n) && (n <=? 90))%N then ascii_of_N (n + 32) else c.

Fixpoint lower (s : string) : string :=
  match s with
  | String c s' => String (lower_ascii c) (lower s')
  | EmptyString => EmptyString
  end.

(** [str.isascii]. *)
Fixpoint isascii (s : string) : bool :=
  match s with
  | String c s' => (N_of_ascii c <? 0x80)%N && isascii s'
  | EmptyString => true
  end.

(** The code points of a string, decoded a byte at a time: [pending] is the
    number of continuation bytes still to come for the code point [acc]. *)
Fixpoint code_points (s : string) (pending : nat) (acc : N) : list N :=
  match s with
  | EmptyString => []
  | String c s' =>
      let b := N_of_ascii c in
      match pending with
      | O =>
          if (b <? 0x80)%N then b :: code_points s' 0 0%N
          else if (b <? 0xe0)%N then code_points s' 1 (b - 0xc0)%N
          else if (b <? 0xf0)%N then code_points s' 2 (b - 0xe0)%N
          else code_points s' 3 (b - 0xf0)%N
      | S n =>
          let acc' := (acc * 64 + (b - 0x80))%N in
          match n with
          | O => acc' :: code_points s' 0 0%N
          | S _ => code_points s' n acc'
          end
      end
  end.

(** The digits zero outside ASCII of the decimal digits of Unicode 14.0
    (the tables of CPython 3.11); the nine code points after each are the
    digits one to nine. *)
Definition decimal_zeros : list N :=
  [0x660; 0x6f0; 0x7c0; 0x966; 0x9e6; 0xa66; 0xae6; 0xb66; 0xbe6; 0xc66;
   0xce6; 0xd66; 0xde6; 0xe50; 0xed0; 0xf20; 0x1040; 0x1090; 0x17e0;
   0x1810; 0x1946; 0x19d0; 0x1a80; 0x1a90; 0x1b50; 0x1bb0; 0x1c40; 0x1c50;
   0xa620; 0xa8d0; 0xa900; 0xa9d0; 0xa9f0; 0xaa50; 0xabf0; 0xff10; 0x104a0;
   0x10d30; 0x11066; 0x110f0; 0x11136; 0x111d0; 0x112f0; 0x11450; 0x114d0;
   0x11650; 0x116c0; 0x11730; 0x118e0; 0x11950; 0x11c50; 0x11d50; 0x11da0;
   0x16a60; 0x16ac0; 0x16b50; 0x1d7ce; 0x1d7d8; 0x1d7e2; 0x1d7ec; 0x1d7f6;
   0x1e140; 0x1e2f0; 0x1e950; 0x1fbf0]%N.

(** [Py_UNICODE_TODECIMAL] outside ASCII. *)
Definition Py_UNICODE_TODECIMAL (ch : N) : option N :=
  (λ zero, ch - zero)%N
    <$> List.find (λ zero, (zero <=? ch) && (ch <? zero + 10))%N decimal_zeros.

(** What [int] makes of a code point before it parses: white space outside
    ASCII becomes a space, a decimal digit outside ASCII the ASCII digit of
    its value, any other character outside ASCII a question mark. *)
Definition to_ascii (ch : N) : N :=
  if (ch <? 127)%N then ch
  else if Py_UNICODE_ISSPACE ch then 0x20%N
  else match Py_UNICODE_TODECIMAL ch with
       | Some d => (0x30 + d)%N
       | None => 0x3f%N
       end.

(** [Py_ISSPACE], the white space [int] skips around the number; the
    separators 0x1c-0x1f are not among it. *)
Definition Py_ISSPACE (ch : N) : bool :=
  bool_decide (ch ∈ [0x09; 0x0a; 0x0b; 0x0c; 0x0d; 0x20]%N).

Fixpoint skip_spaces (s : list N) : list N :=
  match s with
  | ch :: s' => if Py_ISSPACE ch then skip_spaces s' else s
  | [] => []
  end.

(** Decimal digits, single underscores allowed between two digits, white
    space allowed after the last digit; the result is the value and the
    number of digits read. *)
Fixpoint int_digits (s : list N) (acc : Z) (after_digit : bool) (digits : nat)
    : option (Z * nat) :=
  match s with
  | [] => if after_digit then Some (acc, digits) else None
  | ch :: s' =>
      if ((0x30 <=? ch) && (ch <=? 0x39))%N
      then int_digits s' (10 * acc + (Z.of_N ch - 0x30)) true (S digits)
      else if (ch =? 0x5f)%N && after_digit
      then int_digits s' acc false digits
      else if after_digit && bool_decide (skip_spaces s = [])
      then Some (acc, digits)
      else None
  end.

(** [sys.int_info.default_max_str_digits] (CPython 3.11). *)
Definition max_str_digits : nat := 4300.

(** [int(arg)] on a string. *)
Definition int (arg : string) : result Z :=
  let parsed :=
    match skip_spaces (to_ascii <$> code_points arg 0 0%N) with
    | 0x2b%N :: s => int_digits s 0 false 0
    | 0x2d%N :: s => prod_map Z.opp id <$> int_digits s 0 false 0
    | s => int_digits s 0 false 0
    end in
  match parsed with
  | Some (n, digits) =>
      if decide (digits ≤ max_str_digits)%nat then Ok n
      else Raise (ValueError arg)
  | None => Raise (ValueError arg)
  end.

(** ** Extraction (lines 9-21 and 45-61) *)

(** The collaborators of the script that are not part of its source: the
    image library ([Image.open], [img.mode], [img.convert]), the hashing
    library ([imagehash.average_hash]) and the directory walk with the
    extension filter of lines 43-49, which yields [image_files]. *)
Class Collaborators (image hash : Type) : Type := {
  Image_open : string → result image;
  image_mode : image → string;
  image_convert : image → string → result image;
  average_hash : image → Z → result hash;
  walk_image_files : string → list string
}.

Section extraction.
Context {image hash : Type} {ext : Collaborators image hash} {sub : HashSub hash}.

(** Lines 15-18, the body of the [try]. *)
Definition open_and_hash (image_path : string) (hash_size : Z) : result hash :=
  (img <- Image_open image_path ;;
   img <- (if decide (image_mode img ≠ "RGB")
           then image_convert img "RGB" else Ok img) ;;
   average_hash img hash_size)%result.

(** Lines 9-21. *)
Definition get_image_hash (image_path : string) (hash_size : Z) : M (option hash) :=
  try_except
    (h <- lift (open_and_hash image_path hash_size) ;; ret (Some h))%world
    (λ e, print (ErrorProcessing image_path e) ;; ret None)%world.

(** Lines 53-59; [i] counts from 1 and [total] is [len(image_files)]. *)
Fixpoint hash_files (image_files : list string) (total i : nat)
    (file_hashes : dict hash) : M (dict hash) :=
  match image_files with
  | [] => ret file_hashes
  | image_path :: rest =>
      ((if decide (i `mod` 10 = 0)%nat
        then print (ProcessingProgress i total) else ret tt) ;;
       img_hash <- get_image_hash image_path 8 ;;
       hash_files rest total (S i)
         (match img_hash with
          | Some h => dict_setitem file_hashes image_path h
          | None => file_hashes
          end))%world
  end.

(** Lines 29-82. *)
Definition find_duplicate_images (folder_path : string) (similarity_threshold : Z)
    : M (dict (list (string * Z))) :=
  (let image_files := walk_image_files folder_path in
   print (FoundImageFiles (length image_files)) ;;
   file_hashes <- hash_files image_files (length image_files) 1 [] ;;
   print (SuccessfullyProcessed (length file_hashes)) ;;
   st <- lift (cluster similarity_threshold file_hashes) ;;
   ret (duplicates st))%world.
End extraction.

(** ** The deletion plan and the deletion loop (lines 90-150) *)

(** Lines 117-121. *)
Fixpoint list_dupes (dupes : list (string * Z)) (files_to_delete : list string)
    : M (list string) :=
  match dupes with
  | [] => ret files_to_delete
  | (dupe_path, distance) :: dupes' =>
      (print (DupePath dupe_path) ;;
       size <- get_file_size dupe_path ;;
       print (DupeSize size) ;;
       print (DupeDistance distance) ;;
       list_dupes dupes' (files_to_delete ++ [dupe_path]))%world
  end.

(** Lines 112-121. *)
Fixpoint list_groups (duplicates : dict (list (string * Z)))
    (files_to_delete : list string) : M (list string) :=
  match duplicates with
  | [] => ret files_to_delete
  | (original, dupes) :: duplicates' =>
      (print (OriginalLine original) ;;
       size <- get_file_size original ;;
       print (OriginalSize size) ;;
       print (DuplicatesCount (length dupes)) ;;
       files_to_delete <- list_dupes dupes files_to_delete ;;
       list_groups duplicates' files_to_delete)%world
  end.

(** Lines 139-146: one turn of the deletion loop, with the counters. *)
Definition remove_one (file_path : string)
    (deleted_count : nat) (total_size_freed : Z) : M (nat * Z) :=
  try_except
    (file_size <- get_file_size file_path ;;
     os_remove file_path ;;
     print (Deleted file_path) ;;
     ret (S deleted_count, total_size_freed + file_size))%world
    (λ e, print (ErrorDeleting file_path e) ;;
          ret (deleted_count, total_size_freed))%world.

(** Lines 138-146. *)
Fixpoint remove_files (files_to_delete : list string)
    (deleted_count : nat) (total_size_freed : Z) : M (nat * Z) :=
  match files_to_delete with
  | [] => ret (deleted_count, total_size_freed)
  | file_path :: rest =>
      (counters <- remove_one file_path deleted_count total_size_freed ;;
       remove_files rest counters.1 counters.2)%world
  end.

(** Lines 125-133: [true] when the deletion is to go ahead. *)
Definition confirm (interactive : bool) (n : nat) : M bool :=
  if interactive then
    (response <- input (Prompt n) ;;
     let response := lower (strip response) in
     if decide (response ∈ ["yes"; "y"]) then ret true
     else (print DeletionCancelled ;; ret false))%world
  else ret true.

(** Lines 135-150. *)
Definition delete_files (files_to_delete : list string) : M unit :=
  (counters <- remove_files files_to_delete 0 0 ;;
   print RuleEquals ;;
   print (SuccessfullyDeleted counters.1) ;;
   print (TotalSpaceFreed counters.2))%world.

(** Lines 90-150. *)
Definition delete_duplicates (duplicates : dict (list (string * Z)))
    (interactive : bool) : M unit :=
  let total_duplicates := sum_list (length <$> duplicates.*2) in
  if decide (total_duplicates = 0%nat) then print NoDuplicatesFound
  else
    (print (FoundDuplicates total_duplicates (length duplicates)) ;;
     print DuplicateGroupsHeader ;;
     print RuleDashes ;;
     files_to_delete <- list_groups duplicates [] ;;
     print RuleEquals ;;
     go <- confirm interactive (length files_to_delete) ;;
     if go : bool then delete_files files_to_delete else ret tt)%world.

(** ** The command line (lines 153-203) *)

(** Lines 185-194. *)
Fixpoint parse_optional (args : list string) (similarity_threshold : Z)
    (interactive : bool) : M (Z * bool) :=
  match args with
  | [] => ret (similarity_threshold, interactive)
  | arg :: rest =>
      if decide (arg = "--auto") then parse_optional rest similarity_threshold false
      else
        match int arg with
        | Ok n => parse_optional rest n interactive
        | Raise (ValueError _) =>
            (print (InvalidThresholdWarning arg) ;;
             parse_optional rest similarity_threshold interactive)%world
        | Raise e => lift (Raise e)
        end
  end.

(** How a run of the script ends: [main] returns, [sys.exit] is called, or
    an exception escapes. *)
Inductive exit_status : Type :=
  | Returned
  | SysExit (code : Z)
  | Uncaught (e : exn).

Section main.
Context {image hash : Type} {ext : Collaborators image hash} {sub : HashSub hash}.

(** Lines 181-203, once the folder has been checked. *)
Definition scan_and_delete (folder_path : string) (args : list string) : M unit :=
  (settings <- parse_optional args 5 true ;;
   let similarity_threshold := settings.1 in
   let interactive := settings.2 in
   print (ScanningFolder folder_path) ;;
   print (SimilarityThreshold similarity_threshold) ;;
   print (Mode interactive) ;;
   print RuleEquals ;;
   duplicates <- find_duplicate_images folder_path similarity_threshold ;;
   delete_duplicates duplicates interactive)%world.

(** Lines 153-203; [argv] is [sys.argv]. *)
Definition main (argv : list string) (w : world) : exit_status * world :=
  match argv with
  | _ :: folder_path :: args =>
      if negb (os_path_exists w folder_path) then
        (SysExit 1, (print (FolderDoesNotExist folder_path) w).2)
      else if negb (os_path_isdir w folder_path) then
        (SysExit 1, (print (NotADirectory folder_path) w).2)
      else
        match scan_and_delete folder_path args w with
        | (Ok _, w') => (Returned, w')
        | (Raise e, w') => (Uncaught e, w')
        end
  | _ => (SysExit 1, (print Usage w).2)
  end.
End main.

(** ** Vocabulary for the statements *)

(** The world with [log] written after what was on standard output. *)
Definition printed (w : world) (log : list event) : world :=
  {| files := files w; dirs := dirs w; dir_size := dir_size w;
     stdin := stdin w; stdout := stdout w ++ log |}.

(** The invariant of the clusterer; [future] holds the paths the outer loop
    has not reached yet. *)
Definition cluster_inv (st : cluster_state) (future : list string) : Prop :=
  NoDup (originals (duplicates st) ++ duplicate_paths (duplicates st))
  ∧ (∀ p, p ∈ duplicate_paths (duplicates st) → p ∈ processed st)
  ∧ (∀ p, p ∈ originals (duplicates st) → p ∉ future).

(** A computation that leaves the files and the pending input alone. *)
Definition quiet {A} (m : M A) : Prop :=
  ∀ w, files (m w).2 = files w ∧ stdin (m w).2 = stdin w.


Definition deleted_path (ev : event) : option string :=
  match ev with Deleted file_path => Some file_path | _ => None end.

(** The event line 144 or line 146 writes for [file_path]. *)
Definition deletion_report (file_path : string) (ev : event) : Prop :=
  ev = Deleted file_path ∨ ∃ e, ev = ErrorDeleting file_path e.

Definition size_in (w : world) (file_path : string) : Z :=
  default 0 (st_size <$> files w !! file_path).

Definition sum_sizes (w : world) (paths : list string) : Z :=
  foldr (λ p acc, size_in w p + acc) 0 paths.

Section extraction_vocabulary.
Context {image hash : Type} {ext : Collaborators image hash}.


End extraction_vocabulary.

(** ** Sample data *)

(** 64-bit fingerprints given by the positions of their set bits. *)
Definition fingerprint (set_bits : list nat) : ImageHash :=
  (λ i, bool_decide (i ∈ set_bits)) <$> seq 0 64.

(** A fingerprint from a 16 by 16 grid. *)
Definition fingerprint_16 : ImageHash := replicate 256 false.

(** Two files three bits apart. *)
Definition two_files : list (string * ImageHash) :=
  [("a.jpg", fingerprint []); ("b.jpg", fingerprint [0; 1; 2])]%nat.

(** Four files: [b.jpg] is within 2 of [c.jpg] and [e.jpg], and 3 away from
    [a.jpg], which is 5 away from the other two. *)
Definition four_files : list (string * ImageHash) :=
  [("a.jpg", fingerprint [0; 1; 2]); ("b.jpg", fingerprint []);
   ("c.jpg", fingerprint [3; 4]); ("e.jpg", fingerprint [4; 5])]%nat.

(** A second hash type, to exercise the clusterer with distances that are not
    bit counts: points of the plane under the maximum norm. *)
Definition plane_sub (p q : Z * Z) : result Z :=
  Ok (Z.max (Z.abs (p.1 - q.1)) (Z.abs (p.2 - q.2))).

Definition plane_HashSub : HashSub (Z * Z) := {| hash_sub := plane_sub |}.

Definition plane_A_B_C : list (string * (Z * Z)) :=
  [("A.png", (0, 0)); ("B.png", (3, 0)); ("C.png", (8, 6))].

(** A folder of five files, the third of which does not decode; an image is
    stood for by the set bits of its fingerprint. *)
Definition sample_collaborators : Collaborators (list nat) ImageHash := {|
  Image_open image_path :=
    if decide (image_path = "photos/3.jpg")
    then Raise (UnidentifiedImageError image_path)
    else if decide (image_path = "photos/2.jpg") then Ok [0; 1]%nat
    else if decide (image_path = "photos/5.jpg") then Ok [7; 8; 9; 10; 11; 12; 13]%nat
    else Ok [0]%nat;
  image_mode _ := "RGB";
  image_convert img _ := Ok img;
  average_hash img _ := Ok (fingerprint img);
  walk_image_files _ :=
    ["photos/1.jpg"; "photos/2.jpg"; "photos/3.jpg"; "photos/4.jpg"; "photos/5.jpg"]
|}.

Definition sample_world : world := {|
  files :=
    list_to_map
      [("photos/1.jpg", {| st_size := 1000; removable := true |});
       ("photos/2.jpg", {| st_size := 2000; removable := true |});
       ("photos/3.jpg", {| st_size := 10; removable := true |});
       ("photos/4.jpg", {| st_size := 4000; removable := false |});
       ("photos/5.jpg", {| st_size := 5000; removable := true |})];
  dirs := {["photos"]};
  dir_size := λ _, 4096;
  stdin := [" No "];
  stdout := []
|}.

(** ** The extension filter (lines 43 and 48) *)

Definition image_extensions : list string :=
  [".jpg"; ".jpeg"; ".png"; ".bmp"; ".gif"; ".tiff"; ".webp"].

(** [s.rfind(c)], with [None] for the -1 of a character that is not there. *)
Fixpoint rfind (c : ascii) (s : string) : option nat :=
  match s with
  | EmptyString => None
  | String x s' =>
      match rfind c s' with
      | Some i => Some (S i)
      | None => if decide (x = c) then Some 0%nat else None
      end
  end.

(** [Path(file).suffix] for a file name, a single path component as [os.walk]
    lists them: with [i = name.rfind('.')], it is [name[i:]] when
    [0 < i < len(name) - 1] and the empty string otherwise (pathlib up to
    Python 3.13). *)
Definition path_suffix (name : string) : string :=
  match rfind "." name with
  | Some i =>
      if decide (0 < i ∧ i < String.length name - 1)%nat
      then String.substring i (String.length name - i) name
      else EmptyString
  | None => EmptyString
  end.

(** The test of line 48. *)
Definition has_image_extension (file : string) : bool :=
  bool_decide (lower (path_suffix file) ∈ image_extensions).

(** ** Vocabulary for the further properties *)

(** A result read as triples: original, duplicate, recorded distance. *)
Definition cluster_pairs (d : dict (list (string * Z)))
    : list (string * string * Z) :=
  d ≫= (λ c, (λ pd, (c.1, pd.1, pd.2)) <$> c.2).

(** [x] comes before [y] in [l]. *)
Definition precedes {A} (x y : A) (l : list A) : Prop :=
  ∃ l1 l2 l3, l = l1 ++ x :: l2 ++ y :: l3.

(** The dict entry an original ends with: none when it claimed nothing. *)
Definition entry (file1 : string) (claimed : list (string * Z))
    : dict (list (string * Z)) :=
  match claimed with
  | [] => []
  | _ => [(file1, claimed)]
  end.

Section greedy.
Context {hash : Type} {sub : HashSub hash}.
Variable similarity_threshold : Z.

(** What a record of hash [hash1] claims among the records [later] when the
    paths of [taken] are claimed already: those within the threshold, in
    order, each with its distance. *)
Definition claimed_by (hash1 : hash) (taken : gset string)
    (later : list (string * hash)) : list (string * Z) :=
  omap (λ r, if decide (r.1 ∈ taken) then None
             else match hash_sub hash1 r.2 with
                  | Ok d =>
                      if decide (d ≤ similarity_threshold) then Some (r.1, d)
                      else None
                  | Raise _ => None
                  end) later.

(** The clusters without the loops' bookkeeping: each record that is not
    taken claims what [claimed_by] gives it among the records after it, and
    the rest goes on with those taken as well. *)
Fixpoint greedy_clusters (file_list : list (string * hash)) (taken : gset string)
    : dict (list (string * Z)) :=
  match file_list with
  | [] => []
  | (file1, hash1) :: later =>
      if decide (file1 ∈ taken) then greedy_clusters later taken
      else
        let claimed := claimed_by hash1 taken later in
        entry file1 claimed
        ++ greedy_clusters later (list_to_set claimed.*1 ∪ taken)
  end.
End greedy.

(** What an optional argument is to line 185-194: a threshold, or nothing
    (the flag, or text that [int] refuses). *)
Definition threshold_of (arg : string) : option Z :=
  if decide (arg = "--auto") then None
  else match int arg with
       | Ok n => Some n
       | Raise _ => None
       end.

Definition refused (arg : string) : bool :=
  bool_decide (arg ≠ "--auto" ∧ threshold_of arg = None).

(** ** More sample data *)

(** The state the clusterer ends in on [four_files] with threshold 3. *)
Definition four_files_state : cluster_state :=
  match cluster 3 four_files with
  | Ok st => st
  | Raise _ => cluster_init
  end.

Definition two_files_state : cluster_state :=
  match cluster 0 two_files with
  | Ok st => st
  | Raise _ => cluster_init
  end.

(** A file, an unrelated one, and a copy of the first. *)
Definition files_with_copy : list (string * ImageHash) :=
  [("x.png", fingerprint [1]); ("y.png", fingerprint [9; 10; 11; 12; 13; 14]);
   ("x_copy.png", fingerprint [1])]%nat.

Definition files_with_copy_state : cluster_state :=
  match cluster 0 files_with_copy with
  | Ok st => st
  | Raise _ => cluster_init
  end.

(** A plan over the sample files, and one that names a path that is no
    file. *)
Definition sample_plan : dict (list (string * Z)) :=
  [("photos/1.jpg", [("photos/2.jpg", 1); ("photos/5.jpg", 7)])].


Definition sample_world_yes : world := {|
  files := files sample_world;
  dirs := dirs sample_world;
  dir_size := dir_size sample_world;
  stdin := [" Yes"];
  stdout := []
|}.


(** White space outside ASCII, in UTF-8: the no-break space U+00A0, the em
    space U+2003 and the next-line control U+0085; the ASCII unit separator
    0x1f; and digits outside ASCII, the Arabic-Indic three U+0663 and the
    fullwidth seven U+FF17. *)
Definition no_break_space : string := String "194" (String "160" "").
Definition em_space : string := String "226" (String "128" (String "131" "")).
Definition next_line : string := String "194" (String "133" "").
Definition unit_separator : string := String "031" "".
Definition arabic_indic_three : string := String "217" (String "163" "").
Definition fullwidth_seven : string :=
  String "239" (String "188" (String "151" "")).

(** The answer [Yes] with a no-break space before it and an em space after
    it, and the sample files with that answer waiting. *)
Definition padded_yes : string := no_break_space +:+ "Yes" +:+ em_space.

Definition sample_world_padded_yes : world := {|
  files := files sample_world;
  dirs := dirs sample_world;
  dir_size := dir_size sample_world;
  stdin := [padded_yes];
  stdout := []
|}.

(** [n] times the digit zero. *)
Fixpoint zeros (n : nat) : string :=
  match n with
  | O => EmptyString
  | S n' => String "0" (zeros n')
  end.

(** Optional arguments in ASCII: two integers, text, the flag and an integer
    with an underscore. *)
Definition sample_args : list string := ["7"; "abc"; "--auto"; " 12 "; "1_0"].

(** A plan whose duplicate is a directory by now. *)
Definition folder_plan : dict (list (string * Z)) :=
  [("photos/1.jpg", [("photos", 2)])].

(** * Properties *)

(** ** The distance on fingerprints *)

Section count_facts.
Implicit Types a b c : list bool.

Lemma count_nonzero_ne_nonneg a b : 0 ≤ count_nonzero_ne a b.
Proof.
  revert b; induction a as [|x a IH]; intros [|y b]; simpl; try lia.
  specialize (IH b). destruct (xorb x y); lia.
Qed.

Lemma count_nonzero_ne_sym a b : count_nonzero_ne a b = count_nonzero_ne b a.
Proof.
  revert b; induction a as [|x a IH]; intros [|y b]; simpl; try done.
  rewrite (IH b), xorb_comm. done.
Qed.

Lemma count_nonzero_ne_refl a : count_nonzero_ne a a = 0.
Proof.
  induction a as [|x a IH]; simpl; [done|].
  rewrite IH, xorb_nilpotent. done.
Qed.

Lemma count_nonzero_ne_triangle a b c :
  length a = length b → length b = length c →
  count_nonzero_ne a c ≤ count_nonzero_ne a b + count_nonzero_ne b c.
Proof.
  revert b c; induction a as [|x a IH]; intros [|y b] [|z c]; simpl;
    intros Hab Hbc; try lia.
  assert (Hr := IH b c ltac:(lia) ltac:(lia)).
  destruct x, y, z; simpl; lia.
Qed.

(** The three pairwise bit counts always have an even sum: no three
    fingerprints are at distances 3, 8 and 6 of one another. *)
Lemma count_nonzero_ne_parity a b c :
  length a = length b → length b = length c →
  (count_nonzero_ne a b + count_nonzero_ne b c + count_nonzero_ne a c) mod 2 = 0.
Proof.
  revert b c; induction a as [|x a IH]; intros [|y b] [|z c]; simpl;
    intros Hab Hbc; try done.
  assert (Hr := IH b c ltac:(lia) ltac:(lia)).
  apply Z.mod_divide in Hr as [k Hk]; [|lia].
  apply Z.mod_divide; [lia|].
  destruct x, y, z; simpl; first [ by exists k; lia | by exists (k + 1); lia ].
Qed.

Lemma filter_fmap_pre {A B} (f : A → B) (P : B → Prop)
    `{!∀ y, Decision (P y)} (l : list A) :
  filter P (f <$> l) = f <$> filter (λ x, P (f x)) l.
Proof.
  induction l as [|x l IH]; [done|].
  rewrite fmap_cons, !filter_cons.
  destruct (decide (P (f x))); simpl; by rewrite IH.
Qed.

Lemma count_nonzero_ne_positions a b :
  length a = length b →
  count_nonzero_ne a b = Z.of_nat (length (differing_positions a b)).
Proof.
  unfold differing_positions.
  revert b; induction a as [|x a IH]; intros [|y b] Hlen; try done.
  simpl in Hlen.
  cbn [count_nonzero_ne length seq]. rewrite (IH b) by lia.
  rewrite filter_cons, <- (fmap_S_seq 0), filter_fmap_pre.
  destruct x, y; simpl; rewrite length_fmap; lia.
Qed.
End count_facts.

Lemma ImageHash_sub_same_length (a b : ImageHash) :
  length a = length b → hash_sub a b = Ok (count_nonzero_ne a b).
Proof. intros Hlen. simpl. unfold ImageHash_sub. by rewrite decide_True. Qed.

(** C3: for fingerprints A, B, C of one bit-length the three distances are
    defined; the distance is a non-negative integer, the number of positions
    at which the two bit vectors differ; it is symmetric, zero from a
    fingerprint to itself, and satisfies the triangle inequality. *)
Theorem hamming_distance_metric (A B C : ImageHash) :
  length A = length B → length B = length C →
  ∃ ab bc ac : Z,
    hamming_distance A B = Ok ab
    ∧ hamming_distance B C = Ok bc
    ∧ hamming_distance A C = Ok ac
    ∧ 0 ≤ ab
    ∧ ab = Z.of_nat (length (differing_positions A B))
    ∧ hamming_distance B A = Ok ab
    ∧ hamming_distance A A = Ok 0
    ∧ ac ≤ ab + bc.
Proof.
  intros HAB HBC. unfold hamming_distance.
  rewrite !ImageHash_sub_same_length by congruence.
  eexists _, _, _. split_and!; try done.
  - apply count_nonzero_ne_nonneg.
  - by apply count_nonzero_ne_positions.
  - by rewrite count_nonzero_ne_sym.
  - by rewrite count_nonzero_ne_refl.
  - by apply count_nonzero_ne_triangle.
Qed.

Lemma hamming_distance_metric_witness :
  length (fingerprint [0; 1; 2]%nat) = length (fingerprint [])
  ∧ length (fingerprint []) = length (fingerprint [3; 4]%nat)
  ∧ ∃ ab bc ac : Z,
      hamming_distance (fingerprint [0; 1; 2]%nat) (fingerprint []) = Ok ab
      ∧ hamming_distance (fingerprint []) (fingerprint [3; 4]%nat) = Ok bc
      ∧ hamming_distance (fingerprint [0; 1; 2]%nat) (fingerprint [3; 4]%nat) = Ok ac
      ∧ 0 ≤ ab
      ∧ ab = Z.of_nat (length (differing_positions
                                 (fingerprint [0; 1; 2]%nat) (fingerprint [])))
      ∧ hamming_distance (fingerprint []) (fingerprint [0; 1; 2]%nat) = Ok ab
      ∧ hamming_distance (fingerprint [0; 1; 2]%nat) (fingerprint [0; 1; 2]%nat) = Ok 0
      ∧ ac ≤ ab + bc.
Proof.
  split; [reflexivity|]. split; [reflexivity|].
  apply (hamming_distance_metric
           (fingerprint [0; 1; 2]%nat) (fingerprint []) (fingerprint [3; 4]%nat));
    reflexivity.
Defined.

(** C8: on two fingerprints of different bit-lengths the distance metric
    returns no distance; it fails with [IncompatibleFingerprintError]. *)
Theorem hamming_distance_incompatible (A B : ImageHash) :
  length A ≠ length B →
  hamming_distance A B = Raise IncompatibleFingerprintError.
Proof.
  intros Hlen. unfold hamming_distance. simpl. unfold ImageHash_sub.
  by rewrite decide_False.
Qed.

Lemma hamming_distance_incompatible_witness :
  length (fingerprint []) ≠ length fingerprint_16
  ∧ hamming_distance (fingerprint []) fingerprint_16
    = Raise IncompatibleFingerprintError.
Proof.
  assert (length (fingerprint []) ≠ length fingerprint_16) as Hlen
    by (vm_compute; lia).
  split; [exact Hlen|].
  apply (hamming_distance_incompatible (fingerprint []) fingerprint_16 Hlen).
Defined.

(** ** The two dictionary writers *)

Section dict_facts.
Context {V : Type}.
Implicit Types (d : dict (list V)) (k : string) (v : V).

Lemma dd_append_keys d k v :
  (dd_append d k v).*1 = if decide (k ∈ d.*1) then d.*1 else d.*1 ++ [k].
Proof.
  induction d as [|[k' l] d IH]; [done|].
  cbn [dd_append dict_setitem]. rewrite !fmap_cons. cbn [fst].
  destruct (decide (k' = k)) as [->|Hne]; rewrite !fmap_cons; cbn [fst].
  - rewrite decide_True by set_solver. done.
  - rewrite IH. destruct (decide (k ∈ d.*1)).
    + rewrite decide_True by set_solver. done.
    + rewrite decide_False by set_solver. done.
Qed.

Lemma dd_append_length_le d k v :
  (length (dd_append d k v) ≤ S (length d))%nat.
Proof.
  induction d as [|[k' l] d IH]; simpl; [lia|].
  case_decide; simpl; lia.
Qed.

Lemma dd_append_values {B} (f : V → B) d k v :
  mjoin ((λ c, f <$> c.2) <$> dd_append d k v)
  ≡ₚ f v :: mjoin ((λ c, f <$> c.2) <$> d).
Proof.
  induction d as [|[k' l] d IH]; simpl; [done|].
  case_decide; simpl.
  - rewrite fmap_app. simpl.
    rewrite <- (assoc_L (++)). simpl. by rewrite <- Permutation_middle.
  - rewrite IH. by rewrite <- Permutation_middle.
Qed.
End dict_facts.

Lemma dict_setitem_keys {V} (d : dict V) (k : string) (v : V) :
  (dict_setitem d k v).*1 = if decide (k ∈ d.*1) then d.*1 else d.*1 ++ [k].
Proof.
  induction d as [|[k' l] d IH]; [done|].
  cbn [dd_append dict_setitem]. rewrite !fmap_cons. cbn [fst].
  destruct (decide (k' = k)) as [->|Hne]; rewrite !fmap_cons; cbn [fst].
  - rewrite decide_True by set_solver. done.
  - rewrite IH. destruct (decide (k ∈ d.*1)).
    + rewrite decide_True by set_solver. done.
    + rewrite decide_False by set_solver. done.
Qed.


Lemma originals_dd_append (d : dict (list (string * Z))) k v :
  originals (dd_append d k v)
  = if decide (k ∈ originals d) then originals d else originals d ++ [k].
Proof. apply dd_append_keys. Qed.

Lemma duplicate_paths_dd_append (d : dict (list (string * Z))) k p x :
  duplicate_paths (dd_append d k (p, x)) ≡ₚ p :: duplicate_paths d.
Proof. apply (dd_append_values fst). Qed.

(** ** The invariant of the clusterer *)

Lemma cluster_inv_weaken st future future' :
  future' ⊆ future → cluster_inv st future → cluster_inv st future'.
Proof. intros Hsub (? & ? & Ho). repeat split; [done..|]. set_solver. Qed.

Lemma cluster_inv_claim st future file1 file2 distance called :
  cluster_inv st future →
  file1 ∉ processed st → file1 ∉ future →
  file2 ∈ future → file2 ∉ processed st →
  cluster_inv
    {| duplicates := dd_append (duplicates st) file1 (file2, distance);
       processed := {[file2]} ∪ processed st;
       compared := called |} future.
Proof.
  intros (Hnd & Hdp & Hof) H1p H1f H2f H2p. unfold cluster_inv; simpl.
  assert (file1 ≠ file2) by congruence.
  assert (file1 ∉ duplicate_paths (duplicates st)) by (intros ?%Hdp; done).
  assert (file2 ∉ duplicate_paths (duplicates st)) by (intros ?%Hdp; done).
  assert (file2 ∉ originals (duplicates st)) by (intros ?%Hof; done).
  apply NoDup_app in Hnd as (Hno & Hdisj & Hnp).
  rewrite originals_dd_append. split_and!.
  - rewrite duplicate_paths_dd_append.
    case_decide; apply NoDup_app; split_and!.
    + done.
    + intros p Hp. rewrite not_elem_of_cons. split; [congruence|by apply Hdisj].
    + by apply NoDup_cons.
    + apply NoDup_app; split_and!; [done| |apply NoDup_singleton].
      intros p Hp ->%list_elem_of_singleton. done.
    + intros p [Hp| ->%list_elem_of_singleton]%elem_of_app;
        rewrite not_elem_of_cons; split; try done; [congruence|by apply Hdisj].
    + by apply NoDup_cons.
  - intros p. rewrite duplicate_paths_dd_append, elem_of_cons.
    intros [->|Hp%Hdp]; set_solver.
  - intros p. case_decide; [by apply Hof|].
    intros [Hp%Hof| ->%list_elem_of_singleton]%elem_of_app; done.
Qed.

Section clusterer_facts.
Context {hash : Type} {sub : HashSub hash}.
Variable similarity_threshold : Z.
Implicit Types (st : cluster_state) (later : list (string * hash)).

Lemma scan_later_inv file1 hash1 later st st' future :
  scan_later similarity_threshold file1 hash1 later st = Ok st' →
  later.*1 ⊆ future → file1 ∉ future → file1 ∉ processed st →
  cluster_inv st future →
  cluster_inv st' future ∧ file1 ∉ processed st'.
Proof.
  revert st. induction later as [|[file2 hash2] later IH]; simpl; intros st.
  { intros [= <-]. done. }
  intros Hrun Hsub H1f H1p Hinv.
  assert (file2 ∈ future) by set_solver.
  assert (later.*1 ⊆ future) by set_solver.
  destruct (decide (file2 ∈ processed st)); [by eapply IH|].
  destruct (hamming_distance hash1 hash2) as [distance|e]; simpl in Hrun; [|done].
  destruct (decide (distance ≤ similarity_threshold)).
  - eapply IH in Hrun; [done..| |]; simpl.
    + assert (file1 ≠ file2) by congruence. set_solver.
    + by apply cluster_inv_claim.
  - eapply IH in Hrun; done.
Qed.

Lemma scan_all_inv file_list st st' :
  scan_all similarity_threshold file_list st = Ok st' →
  NoDup file_list.*1 → cluster_inv st file_list.*1 → cluster_inv st' [].
Proof.
  revert st. induction file_list as [|[file1 hash1] later IH]; simpl; intros st.
  { intros [= <-]. done. }
  intros Hrun [H1 Hnd]%NoDup_cons Hinv.
  assert (cluster_inv st later.*1)
    by (eapply cluster_inv_weaken; [|done]; set_solver).
  destruct (decide (file1 ∈ processed st)); [by eapply IH|].
  destruct (scan_later _ _ _ _ _) as [st1|e] eqn:Hin; simpl in Hrun; [|done].
  eapply scan_later_inv in Hin as [Hinv1 _]; [|done..].
  by eapply IH.
Qed.

(** Every path of the result is a path of the input. *)
Lemma scan_later_members file1 hash1 later st st' :
  scan_later similarity_threshold file1 hash1 later st = Ok st' →
  originals (duplicates st') ⊆ file1 :: originals (duplicates st)
  ∧ duplicate_paths (duplicates st') ⊆ later.*1 ++ duplicate_paths (duplicates st).
Proof.
  revert st. induction later as [|[file2 hash2] later IH]; simpl; intros st.
  { intros [= <-]. set_solver. }
  intros Hrun.
  destruct (decide (file2 ∈ processed st)).
  { apply IH in Hrun as [? ?]. set_solver. }
  destruct (hamming_distance hash1 hash2) as [distance|e]; simpl in Hrun; [|done].
  destruct (decide (distance ≤ similarity_threshold));
    apply IH in Hrun as [Ho Hd]; simpl in *; [|set_solver].
  split.
  - intros p Hp%Ho. rewrite originals_dd_append in Hp.
    case_decide; set_solver.
  - intros p Hp%Hd. rewrite duplicate_paths_dd_append in Hp. set_solver.
Qed.

Lemma scan_all_members file_list st st' :
  scan_all similarity_threshold file_list st = Ok st' →
  originals (duplicates st') ⊆ file_list.*1 ++ originals (duplicates st)
  ∧ duplicate_paths (duplicates st') ⊆ file_list.*1 ++ duplicate_paths (duplicates st).
Proof.
  revert st. induction file_list as [|[file1 hash1] later IH]; simpl; intros st.
  { intros [= <-]. set_solver. }
  intros Hrun.
  destruct (decide (file1 ∈ processed st)).
  { apply IH in Hrun as [? ?]. set_solver. }
  destruct (scan_later _ _ _ _ _) as [st1|e] eqn:Hin; simpl in Hrun; [|done].
  apply scan_later_members in Hin as [? ?].
  apply IH in Hrun as [? ?]. set_solver.
Qed.

(** The clusterer returns whenever every comparison it may make does. *)
Lemma scan_later_total file1 hash1 later st :
  (∀ hash2, hash2 ∈ later.*2 → ∃ d, hash_sub hash1 hash2 = Ok d) →
  ∃ st', scan_later similarity_threshold file1 hash1 later st = Ok st'.
Proof.
  revert st. induction later as [|[file2 hash2] later IH]; simpl; intros st Hsub.
  { by eexists. }
  destruct (Hsub hash2) as [d Hd]; [set_solver|].
  assert (∀ h, h ∈ later.*2 → ∃ d, hash_sub hash1 h = Ok d) by set_solver.
  destruct (decide (file2 ∈ processed st)); [by apply IH|].
  unfold hamming_distance. rewrite Hd. simpl.
  case_decide; by apply IH.
Qed.

Lemma scan_all_total file_list st :
  (∀ hash1 hash2, hash1 ∈ file_list.*2 → hash2 ∈ file_list.*2 →
     ∃ d, hash_sub hash1 hash2 = Ok d) →
  ∃ st', scan_all similarity_threshold file_list st = Ok st'.
Proof.
  revert st. induction file_list as [|[file1 hash1] later IH]; simpl; intros st Hsub.
  { by eexists. }
  assert (∀ h1 h2, h1 ∈ later.*2 → h2 ∈ later.*2 → ∃ d, hash_sub h1 h2 = Ok d)
    by set_solver.
  destruct (decide (file1 ∈ processed st)); [by apply IH|].
  destruct (scan_later_total file1 hash1 later st) as [st1 ->]; [set_solver|].
  simpl. by apply IH.
Qed.

(** C2: on records with pairwise distinct paths (the items of a dict), for
    every threshold, whenever the clusterer returns, no path is the original
    of two clusters, no path is listed twice as a duplicate (in one cluster
    or in two), no original is listed as a duplicate, and every path of the
    result is a path of the input. *)
Theorem cluster_each_record_once (file_list : list (string * hash)) st :
  NoDup file_list.*1 →
  cluster similarity_threshold file_list = Ok st →
  NoDup (originals (duplicates st))
  ∧ NoDup (duplicate_paths (duplicates st))
  ∧ (∀ p, p ∈ originals (duplicates st) → p ∉ duplicate_paths (duplicates st))
  ∧ (∀ p, p ∈ originals (duplicates st) ++ duplicate_paths (duplicates st) →
          p ∈ file_list.*1).
Proof.
  intros Hnd Hrun. unfold cluster in Hrun.
  assert (cluster_inv cluster_init file_list.*1) as Hinit.
  { repeat split; simpl; [constructor|set_solver..]. }
  destruct (scan_all_inv _ _ _ Hrun Hnd Hinit) as [(Ho & Hdisj & Hd)%NoDup_app _].
  destruct (scan_all_members _ _ _ Hrun) as [Hmo Hmd]. simpl in *.
  split_and!; [done..|].
  intros p [Hp%Hmo|Hp%Hmd]%elem_of_app; set_solver.
Qed.

(** When the first record is within the threshold of every later one it
    claims them all, and the clusters found so far stay what they were, but
    for the one of the first record. *)
Lemma scan_later_absorb file1 hash1 later st :
  (∀ hash2, hash2 ∈ later.*2 →
     ∃ d, hash_sub hash1 hash2 = Ok d ∧ d ≤ similarity_threshold) →
  originals (duplicates st) = [] ∨ originals (duplicates st) = [file1] →
  ∃ st', scan_later similarity_threshold file1 hash1 later st = Ok st'
         ∧ (∀ p, p ∈ later.*1 ∨ p ∈ processed st → p ∈ processed st')
         ∧ (originals (duplicates st') = []
            ∨ originals (duplicates st') = [file1]).
Proof.
  revert st. induction later as [|[file2 hash2] later IH]; simpl; intros st Hsub Hk.
  { eexists; split_and!; [done|set_solver|done]. }
  destruct (Hsub hash2) as (d & Hd & Hle); [set_solver|].
  assert (∀ h, h ∈ later.*2 →
            ∃ d, hash_sub hash1 h = Ok d ∧ d ≤ similarity_threshold) as Hsub'
    by set_solver.
  destruct (decide (file2 ∈ processed st)).
  { destruct (IH st Hsub' Hk) as (st' & Hrun & Hp & Hk').
    exists st'. split_and!; [done| |done].
    intros p [[->|?]%elem_of_cons|?]; apply Hp; auto. }
  unfold hamming_distance. rewrite Hd. simpl. rewrite decide_True by done.
  edestruct IH as (st' & Hrun & Hp & Hk'); [done| |].
  2:{ exists st'. split_and!; [done| |done].
      intros p [[->|?]%elem_of_cons|?]; apply Hp; simpl; set_solver. }
  simpl. rewrite originals_dd_append.
  destruct Hk as [->| ->]; [right|right]; case_decide; set_solver.
Qed.

Lemma scan_all_skip file_list st :
  (∀ p, p ∈ file_list.*1 → p ∈ processed st) →
  scan_all similarity_threshold file_list st = Ok st.
Proof.
  induction file_list as [|[file1 hash1] later IH]; simpl; intros Hp; [done|].
  rewrite decide_True by set_solver. apply IH. set_solver.
Qed.

(** With a threshold no smaller than any pairwise distance there is at most
    one cluster. *)
Lemma cluster_at_max_threshold (file_list : list (string * hash)) :
  (∀ hash1 hash2, hash1 ∈ file_list.*2 → hash2 ∈ file_list.*2 →
     ∃ d, hash_sub hash1 hash2 = Ok d ∧ d ≤ similarity_threshold) →
  ∃ st, cluster similarity_threshold file_list = Ok st
        ∧ (length (duplicates st) ≤ 1)%nat.
Proof.
  unfold cluster. destruct file_list as [|[file1 hash1] later]; simpl; intros Hsub.
  { eexists; split; [done|simpl; lia]. }
  destruct (scan_later_absorb file1 hash1 later cluster_init)
    as (st & Hrun & Hp & Hk); [set_solver|by left|].
  rewrite Hrun. simpl. exists st. split.
  - apply scan_all_skip. auto.
  - unfold originals in Hk. rewrite <- (length_fmap fst).
    destruct Hk as [->| ->]; simpl; lia.
Qed.
End clusterer_facts.

(** ** The clusterer: a scenario, and the threshold *)

Section scenario.
Context {hash : Type} {sub : HashSub hash}.

(** C1: three records A, B, C in this order, with distinct paths and distances
    d(A,B) = 3, d(A,C) = 8, d(B,C) = 6, and threshold 5: the clusterer returns
    the single cluster of original A with duplicates [(B, 3)]; C is in no
    cluster; the comparisons made are A with B and A with C, and no other. *)
Theorem cluster_scenario_A_B_C (A B C : string) (hA hB hC : hash) :
  NoDup [A; B; C] →
  hash_sub hA hB = Ok 3 → hash_sub hA hC = Ok 8 → hash_sub hB hC = Ok 6 →
  ∃ st, cluster 5 [(A, hA); (B, hB); (C, hC)] = Ok st
        ∧ duplicates st = [(A, [(B, 3)])]
        ∧ (C ∉ originals (duplicates st) ++ duplicate_paths (duplicates st))
        ∧ compared st = [(A, B); (A, C)].
Proof.
  intros Hnd HAB HAC HBC.
  apply NoDup_cons in Hnd as [HA [HB _]%NoDup_cons].
  assert (A ≠ B ∧ A ≠ C ∧ B ≠ C) as (? & ? & ?) by set_solver.
  unfold cluster, cluster_init. simpl. unfold hamming_distance.
  rewrite (decide_False (P := A ∈ ∅)) by set_solver.
  rewrite (decide_False (P := B ∈ ∅)) by set_solver.
  rewrite HAB, HAC. simpl.
  rewrite (decide_False (P := C ∈ {[B]} ∪ ∅)) by set_solver. simpl.
  rewrite (decide_True (P := B ∈ {[B]} ∪ ∅)) by set_solver.
  rewrite (decide_False (P := C ∈ {[B]} ∪ ∅)) by set_solver.
  eexists. split_and!; [done..| |done].
  unfold originals, duplicate_paths; simpl. set_solver.
Qed.

(** C4, as amended: when the threshold [t2] is at least every pairwise
    distance of the records, clustering with [t2] returns at most one
    cluster, hence no more clusters than clustering with any threshold that
    yields at least one. *)
Theorem cluster_count_at_max_threshold (file_list : list (string * hash))
    (t1 t2 : Z) st1 :
  (∀ hash1 hash2, hash1 ∈ file_list.*2 → hash2 ∈ file_list.*2 →
     ∃ d, hash_sub hash1 hash2 = Ok d ∧ d ≤ t2) →
  cluster t1 file_list = Ok st1 →
  ∃ st2, cluster t2 file_list = Ok st2
         ∧ (length (duplicates st2) ≤ 1)%nat
         ∧ (duplicates st1 ≠ [] →
            (length (duplicates st2) ≤ length (duplicates st1))%nat).
Proof.
  intros Hmax Hrun1.
  destruct (cluster_at_max_threshold t2 file_list Hmax) as (st2 & Hrun2 & Hle).
  exists st2. split_and!; [done..|].
  destruct (duplicates st1); [done|]. simpl. lia.
Qed.
End scenario.

Ltac by_computation := vm_compute; reflexivity.
Ltac distinct_paths := by apply (bool_decide_unpack _).

Lemma cluster_scenario_A_B_C_witness :
  NoDup ["A.png"; "B.png"; "C.png"]
  ∧ ∃ st, cluster (sub := plane_HashSub) 5 plane_A_B_C = Ok st
          ∧ duplicates st = [("A.png", [("B.png", 3)])]
          ∧ ("C.png" ∉ originals (duplicates st) ++ duplicate_paths (duplicates st))
          ∧ compared st = [("A.png", "B.png"); ("A.png", "C.png")].
Proof.
  split; [distinct_paths|].
  apply (cluster_scenario_A_B_C (sub := plane_HashSub)
           "A.png" "B.png" "C.png" (0, 0) (3, 0) (8, 6));
    [distinct_paths|reflexivity..].
Defined.

Lemma cluster_each_record_once_witness :
  NoDup four_files.*1
  ∧ ∃ st, cluster 3 four_files = Ok st
          ∧ NoDup (originals (duplicates st))
          ∧ NoDup (duplicate_paths (duplicates st))
          ∧ (∀ p, p ∈ originals (duplicates st) →
                  p ∉ duplicate_paths (duplicates st))
          ∧ (∀ p, p ∈ originals (duplicates st) ++ duplicate_paths (duplicates st) →
                  p ∈ four_files.*1).
Proof.
  split; [distinct_paths|].
  eexists. split; [by_computation|].
  apply (cluster_each_record_once 3 four_files); [distinct_paths|by_computation].
Defined.

(** C4, as stated, fails: two files three bits apart form no cluster under
    threshold 0 and one cluster under threshold 5. *)
Lemma cluster_count_not_monotone :
  ¬ (∀ (file_list : list (string * ImageHash)) (t1 t2 : Z) st1 st2,
       NoDup file_list.*1 → 0 ≤ t1 → t1 ≤ t2 →
       cluster t1 file_list = Ok st1 → cluster t2 file_list = Ok st2 →
       (length (duplicates st2) ≤ length (duplicates st1))%nat).
Proof.
  intros Hmono.
  assert (∃ st1, cluster 0 two_files = Ok st1 ∧ duplicates st1 = [])
    as (st1 & Hrun1 & Hd1) by (eexists; split; by_computation).
  assert (∃ st2, cluster 5 two_files = Ok st2
                 ∧ duplicates st2 = [("a.jpg", [("b.jpg", 3)])])
    as (st2 & Hrun2 & Hd2) by (eexists; split; by_computation).
  specialize (Hmono two_files 0 5 st1 st2).
  rewrite Hd1, Hd2 in Hmono. simpl in Hmono.
  enough (1 ≤ 0)%nat by lia.
  apply Hmono; [distinct_paths|lia|lia|done..].
Qed.

(** Nor is the count monotone once there is a cluster: [four_files] give one
    cluster under threshold 2 and two clusters under threshold 3. *)
Lemma cluster_count_grows_from_one :
  ∃ st1 st2, cluster 2 four_files = Ok st1 ∧ cluster 3 four_files = Ok st2
    ∧ duplicates st1 = [("b.jpg", [("c.jpg", 2); ("e.jpg", 2)])]
    ∧ duplicates st2 = [("a.jpg", [("b.jpg", 3)]); ("c.jpg", [("e.jpg", 2)])].
Proof. do 2 eexists. split_and!; by_computation. Qed.

Lemma cluster_count_at_max_threshold_witness :
  (∀ hash1 hash2, hash1 ∈ four_files.*2 → hash2 ∈ four_files.*2 →
     ∃ d, hash_sub hash1 hash2 = Ok d ∧ d ≤ 5)
  ∧ ∃ st1, cluster 2 four_files = Ok st1
     ∧ ∃ st2, cluster 5 four_files = Ok st2
         ∧ (length (duplicates st2) ≤ 1)%nat
         ∧ (duplicates st1 ≠ [] →
            (length (duplicates st2) ≤ length (duplicates st1))%nat).
Proof.
  assert (∀ hash1 hash2, hash1 ∈ four_files.*2 → hash2 ∈ four_files.*2 →
            ∃ d, hash_sub hash1 hash2 = Ok d ∧ d ≤ 5) as Hmax.
  { intros hash1 hash2 H1 H2. unfold four_files in H1, H2. simpl in H1, H2.
    repeat (apply elem_of_cons in H1 as [->|H1]);
      [..|by apply elem_of_nil in H1];
      repeat (apply elem_of_cons in H2 as [->|H2]);
      try (by apply elem_of_nil in H2);
      (eexists; split; [by_computation|lia]). }
  split; [exact Hmax|].
  eexists. split; [by_computation|].
  apply (cluster_count_at_max_threshold four_files 2 5); [exact Hmax|by_computation].
Defined.

(** ** Runs in the world *)

Lemma printed_nil w : printed w [] = w.
Proof. destruct w. unfold printed. simpl. by rewrite app_nil_r. Qed.

Lemma printed_app w log1 log2 :
  printed (printed w log1) log2 = printed w (log1 ++ log2).
Proof. unfold printed. simpl. by rewrite (assoc_L (++)). Qed.

Lemma print_run ev w : print ev w = (Ok tt, printed w [ev]).
Proof. done. Qed.

Lemma get_file_size_run file_path w :
  get_file_size file_path w
  = match files w !! file_path with
    | Some f => (Ok (st_size f), w)
    | None =>
        if decide (file_path ∈ dirs w) then (Ok (dir_size w file_path), w)
        else (Raise (OSError file_path), w)
    end.
Proof. done. Qed.

(** ** Extraction *)

Section extraction_facts.
Context {image hash : Type} {ext : Collaborators image hash} {sub : HashSub hash}.

Lemma get_image_hash_run image_path hash_size w :
  get_image_hash image_path hash_size w
  = match open_and_hash image_path hash_size with
    | Ok h => (Ok (Some h), w)
    | Raise e => (Ok None, printed w [ErrorProcessing image_path e])
    end.
Proof.
  unfold get_image_hash, try_except, bind, lift.
  by destruct (open_and_hash image_path hash_size).
Qed.



End extraction_facts.


(** ** Deletion *)

Lemma bind_run {A B} (m : M A) (k : A → M B) w :
  bind m k w
  = match m w with
    | (Ok a, w') => k a w'
    | (Raise e, w') => (Raise e, w')
    end.
Proof. done. Qed.

Lemma quiet_ret {A} (a : A) : quiet (ret a).
Proof. done. Qed.

Lemma quiet_print ev : quiet (print ev).
Proof. done. Qed.

Lemma quiet_get_file_size file_path : quiet (get_file_size file_path).
Proof.
  intros w. unfold get_file_size.
  destruct (files w !! file_path); [done|]. by case_decide.
Qed.

Lemma quiet_bind {A B} (m : M A) (k : A → M B) :
  quiet m → (∀ a, quiet (k a)) → quiet (bind m k).
Proof.
  intros Hm Hk w. rewrite bind_run. specialize (Hm w).
  destruct (m w) as [[a|e] w']; simpl in *; [|done].
  destruct (Hk a w') as [-> ->]. done.
Qed.

Lemma quiet_list_dupes dupes files_to_delete : quiet (list_dupes dupes files_to_delete).
Proof.
  revert files_to_delete. induction dupes as [|[dupe_path distance] dupes IH];
    intros acc; simpl; [apply quiet_ret|].
  repeat (apply quiet_bind; [first [apply quiet_print|apply quiet_get_file_size]|intros ?]).
  apply IH.
Qed.

Lemma quiet_list_groups duplicates files_to_delete :
  quiet (list_groups duplicates files_to_delete).
Proof.
  revert files_to_delete. induction duplicates as [|[original dupes] duplicates IH];
    intros acc; simpl; [apply quiet_ret|].
  repeat (apply quiet_bind;
          [first [apply quiet_print|apply quiet_get_file_size|apply quiet_list_dupes]
          |intros ?]).
  apply IH.
Qed.

(** The listing goes through when every path of the plan is a file. *)
Lemma list_dupes_ok dupes files_to_delete w :
  (∀ p, p ∈ dupes.*1 → is_Some (files w !! p)) →
  ∃ l, (list_dupes dupes files_to_delete w).1 = Ok l.
Proof.
  revert files_to_delete w. induction dupes as [|[dupe_path distance] dupes IH];
    intros acc w Hfiles; simpl; [by eexists|].
  destruct (Hfiles dupe_path) as [f Hf]; [set_solver|].
  rewrite bind_run, print_run, bind_run, get_file_size_run. simpl. rewrite Hf.
  rewrite !bind_run, !print_run. apply IH. simpl. set_solver.
Qed.

Lemma list_groups_ok duplicates files_to_delete w :
  (∀ p, p ∈ originals duplicates ++ duplicate_paths duplicates →
        is_Some (files w !! p)) →
  ∃ l, (list_groups duplicates files_to_delete w).1 = Ok l.
Proof.
  revert files_to_delete w.
  induction duplicates as [|[original dupes] duplicates IH];
    intros acc w Hfiles; simpl; [by eexists|].
  unfold originals, duplicate_paths in *. simpl in Hfiles.
  destruct (Hfiles original) as [f Hf]; [set_solver|].
  rewrite bind_run, print_run, bind_run, get_file_size_run. simpl. rewrite Hf.
  rewrite bind_run, print_run, bind_run, print_run, bind_run.
  destruct (list_dupes_ok dupes acc
              (printed (printed (printed w [OriginalLine original])
                          [OriginalSize (st_size f)])
                 [DuplicatesCount (length dupes)])) as [l Hl].
  { simpl. intros p Hp. apply Hfiles. set_solver. }
  pose proof (quiet_list_dupes dupes acc
                (printed (printed (printed w [OriginalLine original])
                            [OriginalSize (st_size f)])
                   [DuplicatesCount (length dupes)])) as [Hq _].
  destruct (list_dupes dupes acc _) as [[l'|e] w']; simpl in *; [|done].
  apply IH. rewrite Hq. intros p Hp. apply Hfiles. set_solver.
Qed.

(** C9: in interactive mode, when the line read at the prompt is neither
    [yes] nor [y] once stripped of its white space (that of Unicode, as
    [str.strip] takes it) and lowercased, the files are those of before; and
    when every path of the plan is a file, [delete_duplicates] returns
    normally. *)
Theorem delete_duplicates_declined duplicates w response rest :
  stdin w = response :: rest →
  lower (strip response) ∉ ["yes"; "y"] →
  files (delete_duplicates duplicates true w).2 = files w
  ∧ ((∀ p, p ∈ originals duplicates ++ duplicate_paths duplicates →
           is_Some (files w !! p)) →
     (delete_duplicates duplicates true w).1 = Ok tt).
Proof.
  intros Hin Hno. unfold delete_duplicates.
  case_decide; [done|].
  repeat (rewrite bind_run, print_run; cbv beta iota).
  rewrite bind_run.
  match goal with |- context [list_groups duplicates [] ?w1] => set (w0 := w1) end.
  pose proof (quiet_list_groups duplicates [] w0) as [Hf Hs].
  pose proof (list_groups_ok duplicates [] w0) as Hok.
  destruct (list_groups duplicates [] w0) as [[l|e] w1]; simpl in *.
  2:{ split; [done|]. intros Hfiles. destruct (Hok Hfiles). done. }
  unfold bind, input, print, ret. simpl. rewrite Hs, Hin.
  rewrite decide_False by done. simpl. done.
Qed.

Lemma delete_duplicates_declined_witness :
  stdin sample_world = [" No "]
  ∧ (lower (strip " No ") ∉ ["yes"; "y"])
  ∧ files (delete_duplicates [("photos/1.jpg", [("photos/2.jpg", 1)])] true
             sample_world).2 = files sample_world.
Proof.
  assert (lower (strip " No ") ∉ ["yes"; "y"]) as Hno
    by (apply (bool_decide_unpack _); vm_compute; exact I).
  split; [reflexivity|]. split; [exact Hno|].
  apply (delete_duplicates_declined
           [("photos/1.jpg", [("photos/2.jpg", 1)])] sample_world " No " []
           eq_refl Hno).
Defined.

(** ** The deletion loop *)

Lemma remove_one_run file_path deleted_count total_size_freed w :
  remove_one file_path deleted_count total_size_freed w
  = match files w !! file_path with
    | Some f =>
        if removable f then
          (Ok (S deleted_count, total_size_freed + st_size f),
           {| files := delete file_path (files w); dirs := dirs w;
              dir_size := dir_size w; stdin := stdin w;
              stdout := stdout w ++ [Deleted file_path] |})
        else
          (Ok (deleted_count, total_size_freed),
           printed w [ErrorDeleting file_path (OSError file_path)])
    | None =>
        (Ok (deleted_count, total_size_freed),
         printed w [ErrorDeleting file_path (OSError file_path)])
    end.
Proof.
  unfold remove_one, try_except, bind, get_file_size, os_remove.
  destruct (files w !! file_path) as [f|] eqn:Hf.
  - rewrite Hf. by destruct (removable f).
  - case_decide; [|done]. by rewrite Hf.
Qed.

Lemma sum_sizes_cons w p paths :
  sum_sizes w (p :: paths) = size_in w p + sum_sizes w paths.
Proof. done. Qed.

Lemma sum_sizes_ext w1 w2 paths :
  (∀ p, p ∈ paths → files w1 !! p = files w2 !! p) →
  sum_sizes w1 paths = sum_sizes w2 paths.
Proof.
  induction paths as [|p paths IH]; intros Hext; simpl; [done|].
  rewrite IH by set_solver. unfold size_in. rewrite Hext by set_solver. done.
Qed.

Lemma remove_files_run files_to_delete deleted_count total_size_freed w :
  ∃ log w',
    remove_files files_to_delete deleted_count total_size_freed w
    = (Ok ((deleted_count + length (omap deleted_path log))%nat,
           total_size_freed + sum_sizes w (omap deleted_path log)), w')
    ∧ stdout w' = stdout w ++ log
    ∧ Forall2 deletion_report files_to_delete log
    ∧ NoDup (omap deleted_path log)
    ∧ (∀ p, p ∈ omap deleted_path log →
            is_Some (files w !! p) ∧ files w' !! p = None)
    ∧ (∀ p, p ∉ omap deleted_path log → files w' !! p = files w !! p).
Proof.
  revert deleted_count total_size_freed w.
  induction files_to_delete as [|file_path rest IH]; intros dc ts w.
  { exists [], w. simpl. rewrite app_nil_r, Nat.add_0_r, Z.add_0_r.
    split_and!; [done|done|constructor|constructor|set_solver|done]. }
  cbn [remove_files]. rewrite bind_run, remove_one_run.
  destruct (files w !! file_path) as [f|] eqn:Hf;
    [destruct (removable f) eqn:Hrm|].
  - destruct (IH (S dc) (ts + st_size f)
                {| files := delete file_path (files w); dirs := dirs w;
                   dir_size := dir_size w; stdin := stdin w;
                   stdout := stdout w ++ [Deleted file_path] |})
      as (log & w' & Hrun & Hout & Hrep & Hnd & Hin & Hout').
    simpl in *.
    assert (file_path ∉ omap deleted_path log) as Hfresh.
    { intros [[? Hsome] _]%Hin. by rewrite lookup_delete_eq in Hsome. }
    exists (Deleted file_path :: log), w'. cbn [omap list_omap deleted_path].
    split_and!.
    + rewrite Hrun. do 2 f_equal. f_equal; [simpl; lia|].
      rewrite sum_sizes_cons, (sum_sizes_ext _ w).
      * unfold size_in at 1. rewrite Hf. simpl. lia.
      * intros p Hp. simpl. apply lookup_delete_ne. congruence.
    + by rewrite Hout, <- (assoc_L (++)).
    + constructor; [by left|done].
    + by apply NoDup_cons.
    + intros p [->|Hp]%elem_of_cons.
      * split; [by eexists|]. rewrite Hout' by done. apply lookup_delete_eq.
      * destruct (Hin p Hp) as [Hsome Hnone]. split; [|done].
        rewrite lookup_delete_ne in Hsome; [done|congruence].
    + intros p [Hne Hp]%not_elem_of_cons. rewrite Hout' by done.
      by apply lookup_delete_ne.
  - destruct (IH dc ts (printed w [ErrorDeleting file_path (OSError file_path)]))
      as (log & w' & Hrun & Hout & Hrep & Hnd & Hin & Hout').
    exists (ErrorDeleting file_path (OSError file_path) :: log), w'.
    cbn [omap list_omap deleted_path]. simpl in *.
    split_and!; [done|by rewrite Hout, <- (assoc_L (++))| |done..].
    constructor; [right; by eexists|done].
  - destruct (IH dc ts (printed w [ErrorDeleting file_path (OSError file_path)]))
      as (log & w' & Hrun & Hout & Hrep & Hnd & Hin & Hout').
    exists (ErrorDeleting file_path (OSError file_path) :: log), w'.
    cbn [omap list_omap deleted_path]. simpl in *.
    split_and!; [done|by rewrite Hout, <- (assoc_L (++))| |done..].
    constructor; [right; by eexists|done].
Qed.

(** The files after the loop: a listed file that may be unlinked is gone,
    whatever failed before it in the list; every other path is as it was. *)
Lemma remove_files_files files_to_delete deleted_count total_size_freed w p :
  files (remove_files files_to_delete deleted_count total_size_freed w).2 !! p
  = match files w !! p with
    | Some f =>
        if bool_decide (p ∈ files_to_delete) && removable f then None
        else Some f
    | None => None
    end.
Proof.
  revert deleted_count total_size_freed w.
  induction files_to_delete as [|file_path rest IH]; intros dc ts w.
  { simpl. by destruct (files w !! p). }
  cbn [remove_files]. rewrite bind_run, remove_one_run.
  destruct (files w !! file_path) as [f|] eqn:Hf;
    [destruct (removable f) eqn:Hrm|]; rewrite IH; cbn [files printed].
  - destruct (decide (p = file_path)) as [->|Hne].
    + rewrite lookup_delete_eq, Hf, Hrm.
      by rewrite bool_decide_eq_true_2 by set_solver.
    + rewrite lookup_delete_ne by done.
      by rewrite (bool_decide_ext (p ∈ file_path :: rest) (p ∈ rest))
        by set_solver.
  - destruct (decide (p = file_path)) as [->|Hne].
    + rewrite Hf, Hrm. by rewrite !andb_false_r.
    + by rewrite (bool_decide_ext (p ∈ file_path :: rest) (p ∈ rest))
        by set_solver.
  - destruct (decide (p = file_path)) as [->|Hne].
    + by rewrite Hf.
    + by rewrite (bool_decide_ext (p ∈ file_path :: rest) (p ∈ rest))
        by set_solver.
Qed.

(** C7: the deletion loop always runs to its end: every path of the plan gets
    its own report, [Deleted] or [Error deleting], in the order of the plan,
    whatever happened to the paths before it.  The paths reported deleted are
    exactly the listed paths that were files the process may unlink: a failure
    on one path keeps no later one from being removed.  They are also exactly
    the files that were there before and are gone after; no path is counted
    twice; every other file is untouched; and the count and the total printed
    at the end are the number of those paths and the sum of their sizes. *)
Theorem delete_files_reports_removed files_to_delete w :
  ∃ log w',
    delete_files files_to_delete w = (Ok tt, w')
    ∧ stdout w'
      = stdout w ++ log
        ++ [RuleEquals;
            SuccessfullyDeleted (length (omap deleted_path log));
            TotalSpaceFreed (sum_sizes w (omap deleted_path log))]
    ∧ Forall2 deletion_report files_to_delete log
    ∧ NoDup (omap deleted_path log)
    ∧ (∀ p, p ∈ omap deleted_path log ↔
            p ∈ files_to_delete
            ∧ ∃ f, files w !! p = Some f ∧ removable f = true)
    ∧ (∀ p, p ∈ omap deleted_path log ↔
            is_Some (files w !! p) ∧ files w' !! p = None)
    ∧ (∀ p, p ∉ omap deleted_path log → files w' !! p = files w !! p).
Proof.
  destruct (remove_files_run files_to_delete 0 0 w)
    as (log & w' & Hrun & Hout & Hrep & Hnd & Hin & Hout').
  assert (∀ p, p ∈ omap deleted_path log ↔
               is_Some (files w !! p) ∧ files w' !! p = None) as Hgone.
  { intros p. split; [by apply Hin|].
    intros [Hsome Hnone].
    destruct (decide (p ∈ omap deleted_path log)) as [|Hp]; [done|].
    rewrite (Hout' p Hp) in Hnone. rewrite Hnone in Hsome. by destruct Hsome. }
  exists log,
    (printed w' [RuleEquals;
                 SuccessfullyDeleted (length (omap deleted_path log));
                 TotalSpaceFreed (sum_sizes w (omap deleted_path log))]).
  split_and!; [|simpl|done|done| |done|done].
  - unfold delete_files. rewrite bind_run, Hrun.
    repeat (rewrite bind_run, print_run; cbv beta iota). rewrite print_run.
    rewrite !printed_app. simpl. by rewrite Z.add_0_l.
  - by rewrite Hout, <- (assoc_L (++)).
  - intros p. rewrite Hgone.
    pose proof (remove_files_files files_to_delete 0 0 w p) as Hfiles.
    rewrite Hrun in Hfiles. simpl in Hfiles. rewrite Hfiles.
    destruct (files w !! p) as [f|] eqn:Hf.
    + destruct (decide (p ∈ files_to_delete)) as [Hp|Hp].
      * rewrite bool_decide_eq_true_2 by done. simpl.
        destruct (removable f) eqn:Hrm.
        -- split; [eauto|]. split; [by eexists|done].
        -- split; [by intros [_ ?]|]. intros (_ & f' & [= <-] & ?). congruence.
      * rewrite bool_decide_eq_false_2 by done. simpl.
        split; [by intros [_ ?]|]. by intros [? _].
    + split; [by intros [[? ?] _]|]. by intros (_ & f & ? & _).
Qed.

(** The loop on the sample files: one path twice, one file that may not be
    unlinked, one path that is no file, and a directory. *)
Example delete_files_sample :
  ∃ w', delete_files
          ["photos/2.jpg"; "photos/4.jpg"; "photos/9.jpg"; "photos";
           "photos/5.jpg"; "photos/2.jpg"] sample_world = (Ok tt, w')
        ∧ stdout w'
          = [Deleted "photos/2.jpg";
             ErrorDeleting "photos/4.jpg" (OSError "photos/4.jpg");
             ErrorDeleting "photos/9.jpg" (OSError "photos/9.jpg");
             ErrorDeleting "photos" (OSError "photos");
             Deleted "photos/5.jpg";
             ErrorDeleting "photos/2.jpg" (OSError "photos/2.jpg");
             RuleEquals; SuccessfullyDeleted 2; TotalSpaceFreed 7000]
        ∧ files w'
          = delete "photos/5.jpg" (delete "photos/2.jpg" (files sample_world)).
Proof. eexists. split_and!; by_computation. Qed.

(** ** The command line *)

Lemma int_raises_ValueError arg e : int arg = Raise e → e = ValueError arg.
Proof.
  unfold int. cbv zeta.
  match goal with
  | |- match ?parsed with Some _ => _ | None => _ end = _ → _ =>
      destruct parsed as [[n digits]|]
  end; [case_decide|]; congruence.
Qed.

(** An argument that is neither [--auto] nor an integer is warned about and
    leaves both settings as they are. *)
Lemma parse_optional_warns arg rest similarity_threshold interactive w e :
  arg ≠ "--auto" → int arg = Raise e →
  parse_optional (arg :: rest) similarity_threshold interactive w
  = parse_optional rest similarity_threshold interactive
      (printed w [InvalidThresholdWarning arg]).
Proof.
  intros Hauto Hint. cbn [parse_optional].
  rewrite decide_False by done.
  rewrite (int_raises_ValueError _ _ Hint) in Hint. by rewrite Hint.
Qed.

(** The loop over the optional arguments never aborts. *)
Lemma parse_optional_returns args similarity_threshold interactive w :
  ∃ settings log,
    parse_optional args similarity_threshold interactive w
    = (Ok settings, printed w log).
Proof.
  revert similarity_threshold interactive w.
  induction args as [|arg rest IH]; intros t i w.
  { exists (t, i), []. by rewrite printed_nil. }
  cbn [parse_optional]. case_decide; [apply IH|].
  destruct (int arg) as [n|e] eqn:Hint; [apply IH|].
  rewrite (int_raises_ValueError _ _ Hint).
  rewrite bind_run, print_run.
  destruct (IH t i (printed w [InvalidThresholdWarning arg]))
    as (settings & log & ->).
  exists settings, ([InvalidThresholdWarning arg] ++ log).
  by rewrite printed_app.
Qed.

(** C10, where the code departs from it: when an argument that is not an
    integer follows one that is, the warning about it is written and the
    threshold the scan goes on with is the integer of the argument before,
    not the default 5 that the warning announces. *)
Theorem parse_optional_invalid_after_valid valid invalid n e w :
  valid ≠ "--auto" → invalid ≠ "--auto" →
  int valid = Ok n → int invalid = Raise e →
  parse_optional [valid; invalid] 5 true w
  = (Ok (n, true), printed w [InvalidThresholdWarning invalid]).
Proof.
  intros Hv Hi Hn He. cbn [parse_optional].
  rewrite decide_False by done. rewrite Hn.
  rewrite decide_False by done.
  rewrite (int_raises_ValueError _ _ He) in He. by rewrite He.
Qed.

Lemma parse_optional_invalid_after_valid_witness :
  "3" ≠ "--auto" ∧ "abc" ≠ "--auto"
  ∧ int "3" = Ok 3 ∧ int "abc" = Raise (ValueError "abc")
  ∧ ∀ w, parse_optional ["3"; "abc"] 5 true w
         = (Ok (3, true), printed w [InvalidThresholdWarning "abc"]).
Proof.
  split_and!; [done|done|reflexivity|reflexivity|].
  intros w.
  apply (parse_optional_invalid_after_valid "3" "abc" 3 (ValueError "abc") w);
    [done|done|reflexivity|reflexivity].
Defined.

(** The same from [main]: the scan is run, with threshold 3. *)
Example main_invalid_after_valid :
  ∃ w', main (ext := sample_collaborators)
          ["imagefinder.py"; "photos"; "3"; "abc"] sample_world = (Returned, w')
        ∧ take 3 (stdout w')
          = [InvalidThresholdWarning "abc"; ScanningFolder "photos";
             SimilarityThreshold 3]
        ∧ files w' = files sample_world.
Proof. eexists. split_and!; by_computation. Qed.

(** * Further properties *)

(** ** The clusters as triples *)

Lemma elem_of_cluster_pairs (d : dict (list (string * Z))) o p dist :
  (o, p, dist) ∈ cluster_pairs d ↔ ∃ dups, (o, dups) ∈ d ∧ (p, dist) ∈ dups.
Proof.
  unfold cluster_pairs. rewrite list_elem_of_bind. split.
  - intros ([o' dups] & Hin & Hd). simpl in Hin.
    apply list_elem_of_fmap in Hin as ([p' d'] & [= -> -> ->] & ?). eauto.
  - intros (dups & ? & ?). exists (o, dups). split; [|done].
    apply list_elem_of_fmap. by exists (p, dist).
Qed.

Lemma cluster_pairs_dd_append (d : dict (list (string * Z))) k p dist :
  cluster_pairs (dd_append d k (p, dist)) ≡ₚ (k, p, dist) :: cluster_pairs d.
Proof.
  unfold cluster_pairs.
  induction d as [|[k' l] d IH]; simpl; [done|].
  case_decide; simpl; subst.
  - rewrite fmap_app. simpl.
    rewrite <- (assoc_L (++)). simpl. by rewrite <- Permutation_middle.
  - rewrite IH. by rewrite <- Permutation_middle.
Qed.

Lemma duplicate_paths_pairs (d : dict (list (string * Z))) :
  duplicate_paths d = (λ x, x.1.2) <$> cluster_pairs d.
Proof.
  unfold duplicate_paths, cluster_pairs.
  induction d as [|[k l] d IH]; [done|].
  rewrite fmap_cons, bind_cons, fmap_app. cbn [mjoin list_join].
  f_equal; [|exact IH]. cbn [fst snd].
  rewrite <- list_fmap_compose. done.
Qed.

Lemma elem_of_duplicate_paths (d : dict (list (string * Z))) p :
  p ∈ duplicate_paths d ↔ ∃ o dist, (o, p, dist) ∈ cluster_pairs d.
Proof.
  rewrite duplicate_paths_pairs, list_elem_of_fmap. split.
  - intros ([[o p'] dist] & -> & ?). eauto.
  - intros (o & dist & ?). by exists (o, p, dist).
Qed.

Section clusterer_more.
Context {hash : Type} {sub : HashSub hash}.
Variable similarity_threshold : Z.
Implicit Types (st : cluster_state) (later : list (string * hash)).

(** What is claimed stays claimed. *)
Lemma scan_later_grows file1 hash1 later st st' :
  scan_later similarity_threshold file1 hash1 later st = Ok st' →
  processed st ⊆ processed st'
  ∧ (∀ x, x ∈ cluster_pairs (duplicates st) → x ∈ cluster_pairs (duplicates st')).
Proof.
  revert st. induction later as [|[file2 hash2] later IH]; simpl; intros st.
  { by intros [= <-]. }
  case_decide; [by apply IH|].
  destruct (hamming_distance hash1 hash2) as [distance|e]; simpl; [|done].
  case_decide; intros [Hp Hd]%IH; simpl in *; [|done].
  split; [set_solver|]. intros x Hx. apply Hd.
  rewrite cluster_pairs_dd_append. set_solver.
Qed.

Lemma scan_all_grows file_list st st' :
  scan_all similarity_threshold file_list st = Ok st' →
  processed st ⊆ processed st'
  ∧ (∀ x, x ∈ cluster_pairs (duplicates st) → x ∈ cluster_pairs (duplicates st')).
Proof.
  revert st. induction file_list as [|[file1 hash1] later IH]; simpl; intros st.
  { by intros [= <-]. }
  case_decide; [by apply IH|].
  destruct (scan_later _ _ _ _ _) as [st1|e] eqn:Hin; simpl; [|done].
  apply scan_later_grows in Hin as [? ?]. intros [? ?]%IH. split; [set_solver|auto].
Qed.

(** The claimed paths are the paths listed as duplicates. *)
Lemma scan_later_processed file1 hash1 later st st' :
  scan_later similarity_threshold file1 hash1 later st = Ok st' →
  (∀ p, p ∈ processed st ↔ p ∈ duplicate_paths (duplicates st)) →
  ∀ p, p ∈ processed st' ↔ p ∈ duplicate_paths (duplicates st').
Proof.
  revert st. induction later as [|[file2 hash2] later IH]; simpl; intros st.
  { by intros [= <-]. }
  case_decide; [by apply IH|].
  destruct (hamming_distance hash1 hash2) as [distance|e]; simpl; [|done].
  case_decide; intros Hrun Hst; eapply IH; try done; simpl.
  intros p. rewrite duplicate_paths_dd_append, elem_of_cons, <- Hst. set_solver.
Qed.

Lemma scan_all_processed file_list st st' :
  scan_all similarity_threshold file_list st = Ok st' →
  (∀ p, p ∈ processed st ↔ p ∈ duplicate_paths (duplicates st)) →
  ∀ p, p ∈ processed st' ↔ p ∈ duplicate_paths (duplicates st').
Proof.
  revert st. induction file_list as [|[file1 hash1] later IH]; simpl; intros st.
  { by intros [= <-]. }
  case_decide; [by apply IH|].
  destruct (scan_later _ _ _ _ _) as [st1|e] eqn:Hin; simpl; [|done].
  intros Hrun Hst. eapply IH; [done|]. by eapply scan_later_processed.
Qed.

Lemma cluster_processed file_list st :
  cluster similarity_threshold file_list = Ok st →
  ∀ p, p ∈ processed st ↔ p ∈ duplicate_paths (duplicates st).
Proof.
  intros Hrun. eapply scan_all_processed; [done|]. simpl. set_solver.
Qed.

(** Every triple comes from a comparison within the threshold. *)
Lemma scan_later_sound file1 hash1 later st st' x :
  scan_later similarity_threshold file1 hash1 later st = Ok st' →
  x ∈ cluster_pairs (duplicates st') →
  x ∈ cluster_pairs (duplicates st)
  ∨ ∃ p h d, x = (file1, p, d) ∧ (p, h) ∈ later
             ∧ hash_sub hash1 h = Ok d ∧ d ≤ similarity_threshold.
Proof.
  revert st. induction later as [|[file2 hash2] later IH]; simpl; intros st.
  { intros [= <-]. by left. }
  case_decide.
  { intros Hrun Hx. destruct (IH _ Hrun Hx) as [?|(p & h & d & ?)]; [by left|].
    right. exists p, h, d. set_solver. }
  unfold hamming_distance.
  destruct (hash_sub hash1 hash2) as [distance|e] eqn:Hd; simpl; [|done].
  case_decide; intros Hrun Hx;
    (destruct (IH _ Hrun Hx) as [Hold|(p & h & d & ?)];
     [|right; exists p, h, d; set_solver]); simpl in Hold; [|by left].
  rewrite cluster_pairs_dd_append in Hold.
  apply elem_of_cons in Hold as [->|?]; [|by left].
  right. exists file2, hash2, distance. set_solver.
Qed.

Lemma scan_all_sound file_list st st' x :
  scan_all similarity_threshold file_list st = Ok st' →
  x ∈ cluster_pairs (duplicates st') →
  x ∈ cluster_pairs (duplicates st)
  ∨ ∃ h_o h_p,
      precedes (x.1.1, h_o) (x.1.2, h_p) file_list
      ∧ hash_sub h_o h_p = Ok x.2 ∧ x.2 ≤ similarity_threshold.
Proof.
  revert st. induction file_list as [|[file1 hash1] later IH]; simpl; intros st.
  { intros [= <-]. by left. }
  assert (∀ st0, scan_all similarity_threshold later st0 = Ok st' →
                 x ∈ cluster_pairs (duplicates st') →
                 x ∈ cluster_pairs (duplicates st0)
                 ∨ ∃ h_o h_p,
                     precedes (x.1.1, h_o) (x.1.2, h_p) ((file1, hash1) :: later)
                     ∧ hash_sub h_o h_p = Ok x.2 ∧ x.2 ≤ similarity_threshold)
    as IH'.
  { intros st0 Hrun Hx.
    destruct (IH _ Hrun Hx) as [?|(h_o & h_p & (l1 & l2 & l3 & ->) & ?)];
      [by left|].
    right. exists h_o, h_p. split; [|done]. by exists ((file1, hash1) :: l1), l2, l3. }
  case_decide; [by apply IH'|].
  destruct (scan_later _ _ _ _ _) as [st1|e] eqn:Hin; simpl; [|done].
  intros Hrun Hx. destruct (IH' _ Hrun Hx) as [Hx1|?]; [|by right].
  destruct (scan_later_sound _ _ _ _ _ _ Hin Hx1)
    as [?|(p & h & d & -> & Hp & Hd & Hle)]; [by left|].
  right. exists hash1, h. simpl. split; [|done].
  apply list_elem_of_split in Hp as (l2 & l3 & ->). by exists [], l2, l3.
Qed.

(** X1: whenever the clusterer returns, every pair (duplicate, distance)
    listed under an original comes from two records of the input, the
    original's before the duplicate's, and the distance is the value of
    [hash1 - hash2] on their hashes, at most the threshold. *)
Theorem cluster_duplicates_within_threshold (file_list : list (string * hash))
    st original dupes dupe_path distance :
  cluster similarity_threshold file_list = Ok st →
  (original, dupes) ∈ duplicates st → (dupe_path, distance) ∈ dupes →
  ∃ hash1 hash2,
    precedes (original, hash1) (dupe_path, hash2) file_list
    ∧ hamming_distance hash1 hash2 = Ok distance
    ∧ distance ≤ similarity_threshold.
Proof.
  intros Hrun Hc Hd.
  assert ((original, dupe_path, distance) ∈ cluster_pairs (duplicates st)) as Hx
    by (apply elem_of_cluster_pairs; eauto).
  destruct (scan_all_sound _ _ _ _ Hrun Hx) as [Hinit|?]; [|done].
  simpl in Hinit. by apply elem_of_nil in Hinit.
Qed.

(** A record that ends unclaimed was compared with every unclaimed record
    after it, and found beyond the threshold. *)
Lemma scan_later_far file1 hash1 later st st' q hq :
  scan_later similarity_threshold file1 hash1 later st = Ok st' →
  (q, hq) ∈ later → q ∉ processed st' →
  ∃ d, hash_sub hash1 hq = Ok d ∧ similarity_threshold < d.
Proof.
  revert st. induction later as [|[file2 hash2] later IH]; simpl; intros st.
  { intros _ ?%elem_of_nil. done. }
  intros Hrun [[= -> ->]|Hq]%elem_of_cons Hfree.
  2:{ revert Hrun. case_decide; [by eauto|].
      destruct (hamming_distance hash1 hash2); simpl; [|done].
      case_decide; eauto. }
  revert Hrun. case_decide.
  { intros [? _]%scan_later_grows. set_solver. }
  unfold hamming_distance.
  destruct (hash_sub hash1 hash2) as [distance|e]; simpl; [|done].
  case_decide.
  - intros [? _]%scan_later_grows. simpl in *. set_solver.
  - intros _. exists distance. split; [done|lia].
Qed.

Lemma scan_all_far file_list st st' r1 r2 :
  scan_all similarity_threshold file_list st = Ok st' →
  precedes r1 r2 file_list →
  r1.1 ∉ processed st' → r2.1 ∉ processed st' →
  ∃ d, hash_sub r1.2 r2.2 = Ok d ∧ similarity_threshold < d.
Proof.
  intros Hrun (l1 & l2 & l3 & ->). revert st Hrun.
  induction l1 as [|[file1 hash1] l1 IH]; simpl; intros st.
  - destruct r1 as [f h]. simpl. case_decide.
    { intros [? _]%scan_all_grows. set_solver. }
    destruct (scan_later _ _ _ _ _) as [st1|e] eqn:Hin; simpl; [|done].
    intros [? _]%scan_all_grows Hf Hq. destruct r2 as [q hq].
    apply (scan_later_far f h _ st st1 q hq Hin); simpl in *; set_solver.
  - case_decide; [by apply IH|].
    destruct (scan_later _ _ _ _ _) as [st1|e] eqn:Hin; simpl; [|done].
    apply IH.
Qed.

(** X2: whenever the clusterer returns, two records neither of which is
    listed as a duplicate are beyond the threshold of one another: the
    distance from the earlier to the later is defined and greater than the
    threshold. *)
Theorem cluster_survivors_beyond_threshold (file_list : list (string * hash))
    st file1 hash1 file2 hash2 :
  cluster similarity_threshold file_list = Ok st →
  precedes (file1, hash1) (file2, hash2) file_list →
  file1 ∉ duplicate_paths (duplicates st) →
  file2 ∉ duplicate_paths (duplicates st) →
  ∃ distance, hamming_distance hash1 hash2 = Ok distance
              ∧ similarity_threshold < distance.
Proof.
  intros Hrun Hprec H1 H2.
  pose proof (cluster_processed _ _ Hrun) as Hp.
  apply (scan_all_far _ _ _ (file1, hash1) (file2, hash2) Hrun Hprec);
    simpl; by rewrite Hp.
Qed.
End clusterer_more.

(** ** The clusterer and its loop-free description *)

Lemma dd_append_entry (D : dict (list (string * Z))) file1 acc v :
  file1 ∉ D.*1 →
  dd_append (D ++ entry file1 acc) file1 v = D ++ entry file1 (acc ++ [v]).
Proof.
  induction D as [|[k l] D IH]; intros Hfresh.
  - destruct acc as [|x acc]; simpl; [done|]. by rewrite decide_True.
  - rewrite fmap_cons in Hfresh. simpl in Hfresh.
    cbn [app dd_append]. rewrite decide_False by set_solver.
    rewrite IH by set_solver. done.
Qed.

Lemma dd_append_nonempty {V} (d : dict (list V)) k v :
  Forall (λ c, c.2 ≠ []) d → Forall (λ c, c.2 ≠ []) (dd_append d k v).
Proof.
  induction 1 as [|[k' l] d Hl Hd IH]; simpl.
  - by repeat constructor.
  - case_decide; constructor; simpl in *; try done. by destruct l.
Qed.

Lemma sum_lengths_zero {V} (d : dict (list V)) :
  Forall (λ c, c.2 ≠ []) d →
  sum_list (length <$> d.*2) = 0%nat ↔ d = [].
Proof.
  intros Hne. split; [|by intros ->].
  destruct Hne as [|[k l] d Hl _]; [done|].
  simpl in *. destruct l; [done|]. simpl. lia.
Qed.

Section clusterer_exact.
Context {hash : Type} {sub : HashSub hash}.
Variable similarity_threshold : Z.
Implicit Types (st : cluster_state) (later : list (string * hash)).

Lemma scan_later_nonempty file1 hash1 later st st' :
  scan_later similarity_threshold file1 hash1 later st = Ok st' →
  Forall (λ c, c.2 ≠ []) (duplicates st) →
  Forall (λ c, c.2 ≠ []) (duplicates st').
Proof.
  revert st. induction later as [|[file2 hash2] later IH]; simpl; intros st.
  { by intros [= <-]. }
  case_decide; [by apply IH|].
  destruct (hamming_distance hash1 hash2) as [distance|e]; simpl; [|done].
  case_decide; intros Hrun Hne; eapply IH; try done; simpl.
  by apply dd_append_nonempty.
Qed.

Lemma scan_all_nonempty file_list st st' :
  scan_all similarity_threshold file_list st = Ok st' →
  Forall (λ c, c.2 ≠ []) (duplicates st) →
  Forall (λ c, c.2 ≠ []) (duplicates st').
Proof.
  revert st. induction file_list as [|[file1 hash1] later IH]; simpl; intros st.
  { by intros [= <-]. }
  case_decide; [by apply IH|].
  destruct (scan_later _ _ _ _ _) as [st1|e] eqn:Hin; simpl; [|done].
  intros Hrun Hne. eapply IH; [done|]. by eapply scan_later_nonempty.
Qed.

Lemma claimed_by_taken hash1 (taken : gset string) file2 later :
  file2 ∉ later.*1 →
  claimed_by similarity_threshold hash1 ({[file2]} ∪ taken) later
  = claimed_by similarity_threshold hash1 taken later.
Proof.
  intros Hfresh. unfold claimed_by. apply list_omap_ext, Forall_Forall2_diag.
  apply Forall_forall. intros [p h] Hin. simpl.
  assert (p ≠ file2).
  { intros ->. apply Hfresh, list_elem_of_fmap. by exists (file2, h). }
  destruct (decide (p ∈ taken)).
  - rewrite decide_True by set_solver. done.
  - rewrite decide_False by set_solver. done.
Qed.

Lemma scan_later_exact file1 hash1 later st st' D acc :
  scan_later similarity_threshold file1 hash1 later st = Ok st' →
  NoDup later.*1 → file1 ∉ D.*1 →
  duplicates st = D ++ entry file1 acc →
  duplicates st'
  = D ++ entry file1
           (acc ++ claimed_by similarity_threshold hash1 (processed st) later)
  ∧ processed st'
    = list_to_set (claimed_by similarity_threshold hash1 (processed st) later).*1
      ∪ processed st.
Proof.
  revert st acc.
  induction later as [|[file2 hash2] later IH]; intros st acc.
  { simpl. intros [= <-] _ _ ->. rewrite app_nil_r. split; [done|set_solver]. }
  rewrite fmap_cons. simpl. intros Hrun [Hfresh Hnd]%NoDup_cons HD Hst.
  unfold claimed_by. cbn [omap list_omap]. fold (claimed_by similarity_threshold).
  simpl. revert Hrun. unfold hamming_distance.
  destruct (decide (file2 ∈ processed st)); [by eauto|].
  destruct (hash_sub hash1 hash2) as [distance|e]; simpl; [|done].
  destruct (decide (distance ≤ similarity_threshold)).
  - intros Hrun.
    eapply (IH _ (acc ++ [(file2, distance)])) in Hrun as [Hd Hp];
      [|done|done|simpl; by rewrite Hst, dd_append_entry].
    simpl in Hd, Hp. rewrite claimed_by_taken in Hd, Hp by done.
    rewrite <- (assoc_L (++)) in Hd. split; [done|].
    rewrite Hp, fmap_cons. simpl. set_solver.
  - intros Hrun. eapply (IH _ acc) in Hrun as [Hd Hp]; done.
Qed.

Lemma scan_all_exact file_list st st' :
  scan_all similarity_threshold file_list st = Ok st' →
  NoDup file_list.*1 →
  (∀ p, p ∈ file_list.*1 → p ∉ originals (duplicates st)) →
  duplicates st'
  = duplicates st ++ greedy_clusters similarity_threshold file_list (processed st).
Proof.
  revert st. induction file_list as [|[file1 hash1] later IH]; intros st.
  { simpl. intros [= <-] _ _. by rewrite app_nil_r. }
  rewrite fmap_cons. simpl. intros Hrun [Hfresh Hnd]%NoDup_cons Horig.
  revert Hrun. case_decide.
  { intros Hrun. apply IH; [done..|]. set_solver. }
  destruct (scan_later _ _ _ _ _) as [st1|e] eqn:Hin; simpl; [|done].
  intros Hrun.
  destruct (scan_later_exact file1 hash1 later st st1 (duplicates st) [] Hin)
    as [Hd Hp]; [done|apply Horig; set_solver|by rewrite app_nil_r|].
  simpl in Hd. rewrite (IH st1 Hrun Hnd).
  - rewrite Hd, Hp, <- (assoc_L (++)). done.
  - intros p Hp'. rewrite Hd. unfold originals. rewrite fmap_app.
    intros [?|Hin']%elem_of_app; [by eapply Horig; [right|]|].
    destruct (claimed_by _ _ _ _); simpl in Hin'; set_solver.
Qed.

(** X3: on records with distinct paths, the dict the two loops build is
    the list of [greedy_clusters]: each unclaimed record in turn, with the
    unclaimed records after it that are within the threshold, in order, and no
    entry for a record that claims nothing. *)
Theorem cluster_refines_greedy (file_list : list (string * hash)) st :
  NoDup file_list.*1 →
  cluster similarity_threshold file_list = Ok st →
  duplicates st = greedy_clusters similarity_threshold file_list ∅.
Proof.
  intros Hnd Hrun.
  apply scan_all_exact in Hrun; [done|done|]. simpl. set_solver.
Qed.

(** X4: whenever the clusterer returns, no original has an empty list of
    duplicates; so the total of line 98 is zero exactly when there is no cluster
    at all. *)
Theorem cluster_no_empty_cluster (file_list : list (string * hash)) st :
  cluster similarity_threshold file_list = Ok st →
  (∀ original dupes, (original, dupes) ∈ duplicates st → dupes ≠ [])
  ∧ (sum_list (length <$> (duplicates st).*2) = 0%nat ↔ duplicates st = []).
Proof.
  intros Hrun.
  assert (Forall (λ c, c.2 ≠ []) (duplicates st)) as Hne
    by (eapply scan_all_nonempty; [done|constructor]).
  split; [|by apply sum_lengths_zero].
  intros original dupes Hin. rewrite Forall_forall in Hne. by apply (Hne _ Hin).
Qed.
End clusterer_exact.

Lemma elem_of_precedes {A} (x y : A) (l : list A) :
  x ∈ l → y ∈ l → x ≠ y → precedes x y l ∨ precedes y x l.
Proof.
  intros (l1 & l2 & ->)%list_elem_of_split Hy Hne.
  apply elem_of_app in Hy as [Hy|Hy].
  - right. apply list_elem_of_split in Hy as (a & b & ->).
    exists a, b, l2. by rewrite <- (assoc_L (++)).
  - left. apply elem_of_cons in Hy as [->|Hy]; [done|].
    apply list_elem_of_split in Hy as (a & b & ->). by exists l1, a, b.
Qed.

Lemma NoDup_fst_unique {A B} (l : list (A * B)) x y1 y2 :
  NoDup l.*1 → (x, y1) ∈ l → (x, y2) ∈ l → y1 = y2.
Proof.
  induction l as [|[a b] l IH]; [by intros _ ?%elem_of_nil|].
  rewrite fmap_cons. simpl. intros [Hfresh Hnd]%NoDup_cons H1 H2.
  apply elem_of_cons in H1 as [H1|H1]; apply elem_of_cons in H2 as [H2|H2];
    simplify_eq.
  - done.
  - destruct Hfresh. apply list_elem_of_fmap. by exists (a, y2).
  - destruct Hfresh. apply list_elem_of_fmap. by exists (a, y1).
  - by apply IH.
Qed.

Section greedy_facts.
Context {hash : Type} {sub : HashSub hash}.
Variable similarity_threshold : Z.
Implicit Types (later : list (string * hash)) (taken : gset string).

Lemma claimed_by_sublist hash1 taken later :
  (claimed_by similarity_threshold hash1 taken later).*1 `sublist_of` later.*1.
Proof.
  unfold claimed_by. induction later as [|[p h] later IH]; [constructor|].
  cbn [omap list_omap]. simpl.
  destruct (decide (p ∈ taken)); [by apply sublist_cons|].
  destruct (hash_sub hash1 h) as [d|]; [|by apply sublist_cons].
  destruct (decide (d ≤ similarity_threshold)); [|by apply sublist_cons].
  rewrite fmap_cons. by apply sublist_skip.
Qed.

Lemma elem_of_claimed_by hash1 taken later p h d :
  (p, h) ∈ later → p ∉ taken →
  hash_sub hash1 h = Ok d → d ≤ similarity_threshold →
  (p, d) ∈ claimed_by similarity_threshold hash1 taken later.
Proof.
  intros Hin Hfree Hd Hle. apply list_elem_of_omap. exists (p, h).
  split; [done|]. simpl. rewrite decide_False by done.
  rewrite Hd. by rewrite decide_True.
Qed.

Lemma claimed_by_elem hash1 taken later p :
  p ∈ (claimed_by similarity_threshold hash1 taken later).*1 →
  ∃ h d, (p, h) ∈ later ∧ hash_sub hash1 h = Ok d ∧ d ≤ similarity_threshold.
Proof.
  intros ([p' d] & -> & Hin)%list_elem_of_fmap.
  apply list_elem_of_omap in Hin as ([q h] & Hq & Hf). simpl in *.
  case_decide; [done|].
  destruct (hash_sub hash1 h) as [d'|] eqn:Hd; [|done].
  case_decide; [|done]. simplify_eq. eauto.
Qed.

Lemma entry_elem file1 claimed c :
  c ∈ entry file1 claimed → c = (file1, claimed) ∧ claimed ≠ [].
Proof.
  destruct claimed; simpl; [by intros ?%elem_of_nil|].
  by intros ->%list_elem_of_singleton.
Qed.

Lemma greedy_clusters_ordered file_list taken :
  originals (greedy_clusters similarity_threshold file_list taken)
    `sublist_of` file_list.*1
  ∧ ∀ original dupes,
      (original, dupes) ∈ greedy_clusters similarity_threshold file_list taken →
      original :: dupes.*1 `sublist_of` file_list.*1.
Proof.
  revert taken. induction file_list as [|[file1 hash1] later IH]; intros taken.
  { simpl. split; [constructor|]. by intros ?? ?%elem_of_nil. }
  rewrite fmap_cons. simpl. case_decide.
  { destruct (IH taken) as [Ho Hd]. split; [by constructor|].
    intros o dups Hin. constructor. by apply Hd. }
  set (claimed := claimed_by similarity_threshold hash1 taken later).
  destruct (IH (list_to_set claimed.*1 ∪ taken)) as [Ho Hd]. split.
  - unfold originals in *. rewrite fmap_app.
    apply (sublist_app _ [file1]); [|done].
    destruct claimed; simpl; repeat constructor.
  - intros o dups [Hin|Hin]%elem_of_app.
    + apply entry_elem in Hin as [[= -> ->] _].
      constructor. apply claimed_by_sublist.
    + constructor. by apply Hd.
Qed.

Lemma greedy_clusters_same_hash file_list taken p q h d0 :
  NoDup file_list.*1 → precedes (p, h) (q, h) file_list →
  p ∉ taken → q ∉ taken →
  hash_sub h h = Ok d0 → d0 ≤ similarity_threshold →
  ∃ original dupes,
    (original, dupes) ∈ greedy_clusters similarity_threshold file_list taken
    ∧ p ∈ original :: dupes.*1 ∧ q ∈ original :: dupes.*1.
Proof.
  intros Hnd Hprec Hp Hq Hself Hle. revert taken Hnd Hprec Hp Hq.
  induction file_list as [|[file1 hash1] later IH]; intros taken Hnd Hprec Hp Hq.
  { destruct Hprec as (l1 & ? & ? & Heq). by destruct l1. }
  rewrite fmap_cons in Hnd. simpl in Hnd. apply NoDup_cons in Hnd as [Hfresh Hnd].
  destruct Hprec as ([|r l1] & l2 & l3 & Heq); simpl in Heq; simplify_eq.
  - (* the first record is [p] itself *)
    simpl. rewrite decide_False by done.
    set (claimed := claimed_by similarity_threshold h taken (l2 ++ (q, h) :: l3)).
    assert ((q, d0) ∈ claimed) as Hin
      by (apply (elem_of_claimed_by _ _ _ q h); [set_solver|done..]).
    exists p, claimed. split_and!; [|set_solver|].
    + apply elem_of_app. left. destruct claimed; [by apply elem_of_nil in Hin|].
      simpl. set_solver.
    + right. apply list_elem_of_fmap. by exists (q, d0).
  - (* both records come later *)
    assert (precedes (p, h) (q, h) (l1 ++ (p, h) :: l2 ++ (q, h) :: l3))
      as Hprec by (by exists l1, l2, l3).
    set (later := l1 ++ (p, h) :: l2 ++ (q, h) :: l3) in *.
    assert ((p, h) ∈ later ∧ (q, h) ∈ later) as [Hpin Hqin]
      by (unfold later; set_solver).
    simpl. case_decide; [by apply IH|].
    set (claimed := claimed_by similarity_threshold hash1 taken later).
    destruct (decide (p ∈ claimed.*1 ∨ q ∈ claimed.*1)) as [Hcl|Hfree].
    + assert (∃ d, hash_sub hash1 h = Ok d ∧ d ≤ similarity_threshold)
        as (d & Hd & Hdle).
      { destruct Hcl as [Hc|Hc];
          apply claimed_by_elem in Hc as (h' & d & Hin' & ? & ?);
          exists d; split; [|done| |done].
        - by rewrite (NoDup_fst_unique later p h h' Hnd Hpin Hin').
        - by rewrite (NoDup_fst_unique later q h h' Hnd Hqin Hin'). }
      assert ((p, d) ∈ claimed ∧ (q, d) ∈ claimed) as [Hpc Hqc].
      { split; eapply elem_of_claimed_by; done. }
      exists file1, claimed. split_and!.
      * apply elem_of_app. left. destruct claimed; [by apply elem_of_nil in Hpc|].
        simpl. set_solver.
      * right. apply list_elem_of_fmap. by exists (p, d).
      * right. apply list_elem_of_fmap. by exists (q, d).
    + destruct (IH (list_to_set claimed.*1 ∪ taken) Hnd Hprec)
        as (o & dups & Hin & ? & ?); [set_solver..|].
      exists o, dups. split_and!; [|done..]. apply elem_of_app. by right.
Qed.
End greedy_facts.

Section clusterer_order.
Context {hash : Type} {sub : HashSub hash}.
Variable similarity_threshold : Z.

(** X5: on records with distinct paths, the clusters come in the
    enumeration order of their originals, and in each cluster the original
    followed by its duplicates is in enumeration order. *)
Theorem cluster_in_enumeration_order (file_list : list (string * hash)) st :
  NoDup file_list.*1 →
  cluster similarity_threshold file_list = Ok st →
  originals (duplicates st) `sublist_of` file_list.*1
  ∧ ∀ original dupes, (original, dupes) ∈ duplicates st →
      original :: dupes.*1 `sublist_of` file_list.*1.
Proof.
  intros Hnd Hrun.
  apply scan_all_exact in Hrun; [|done|simpl; set_solver].
  simpl in Hrun. rewrite Hrun. apply greedy_clusters_ordered.
Qed.

(** X6: on records with distinct paths, two records with the same hash,
    whose distance to itself is within the threshold, end in one cluster: one
    is the original of the other, or both are duplicates of one original. *)
Theorem cluster_same_hash_together (file_list : list (string * hash)) st
    file1 file2 h d0 :
  NoDup file_list.*1 →
  cluster similarity_threshold file_list = Ok st →
  (file1, h) ∈ file_list → (file2, h) ∈ file_list → file1 ≠ file2 →
  hamming_distance h h = Ok d0 → d0 ≤ similarity_threshold →
  ∃ original dupes,
    (original, dupes) ∈ duplicates st
    ∧ file1 ∈ original :: dupes.*1 ∧ file2 ∈ original :: dupes.*1.
Proof.
  intros Hnd Hrun H1 H2 Hne Hself Hle.
  apply scan_all_exact in Hrun; [|done|simpl; set_solver].
  simpl in Hrun. rewrite Hrun.
  destruct (elem_of_precedes (file1, h) (file2, h) file_list)
    as [Hprec|Hprec]; [done|done|congruence| |].
  - eapply greedy_clusters_same_hash; [done..|set_solver|set_solver|done|done].
  - destruct (greedy_clusters_same_hash similarity_threshold file_list ∅
                file2 file1 h d0) as (o & dups & ? & ? & ?);
      [done..|set_solver|set_solver|done|done|].
    by exists o, dups.
Qed.

(** X7: whenever the clusterer returns, it returns no cluster exactly when
    every record is beyond the threshold of every record after it. *)
Theorem cluster_none_iff_all_beyond (file_list : list (string * hash)) st :
  cluster similarity_threshold file_list = Ok st →
  duplicates st = [] ↔
  ∀ r1 r2, precedes r1 r2 file_list →
    ∃ distance, hamming_distance r1.2 r2.2 = Ok distance
                ∧ similarity_threshold < distance.
Proof.
  intros Hrun. split.
  - intros Hnone r1 r2 Hprec.
    pose proof (cluster_processed _ _ _ Hrun) as Hp.
    apply (scan_all_far _ _ _ _ r1 r2 Hrun Hprec);
      rewrite Hp, Hnone; apply not_elem_of_nil.
  - intros Hfar.
    assert (Forall (λ c, c.2 ≠ []) (duplicates st)) as Hne
      by (eapply scan_all_nonempty; [done|constructor]).
    destruct (duplicates st) as [|[o dups] d] eqn:Hd; [done|].
    apply Forall_cons in Hne as [Hne _]. simpl in Hne.
    destruct dups as [|[p dist] dups]; [done|].
    assert ((o, p, dist) ∈ cluster_pairs (duplicates st)) as Hx.
    { apply elem_of_cluster_pairs. exists ((p, dist) :: dups).
      rewrite Hd. set_solver. }
    destruct (scan_all_sound _ _ _ _ _ Hrun Hx)
      as [Hinit|(h_o & h_p & Hprec & Hdist & Hle)].
    { simpl in Hinit. by apply elem_of_nil in Hinit. }
    destruct (Hfar _ _ Hprec) as (d' & Hd' & Hlt). simpl in *.
    unfold hamming_distance in Hd'. rewrite Hdist in Hd'. simplify_eq. lia.
Qed.
End clusterer_order.

(** ** Extraction, whatever the enumeration *)

Lemma dict_setitem_elem {V} (d : dict V) k v p x :
  (p, x) ∈ dict_setitem d k v → (p, x) = (k, v) ∨ (p, x) ∈ d.
Proof.
  induction d as [|[k' v'] d IH]; simpl.
  - intros ->%list_elem_of_singleton. by left.
  - case_decide; intros [->|Hin]%elem_of_cons; [by left|set_solver|set_solver|].
    destruct (IH Hin); [by left|set_solver].
Qed.

Lemma dict_setitem_NoDup {V} (d : dict V) k v :
  NoDup d.*1 → NoDup (dict_setitem d k v).*1.
Proof.
  intros Hnd. rewrite dict_setitem_keys. case_decide; [done|].
  apply NoDup_app. split_and!; [done| |apply NoDup_singleton].
  intros p Hp ->%list_elem_of_singleton. done.
Qed.

Section extraction_general.
Context {image hash : Type} {ext : Collaborators image hash} {sub : HashSub hash}.

Lemma hash_files_any image_files total i (file_hashes : dict hash) w :
  NoDup file_hashes.*1 →
  ∃ log file_hashes',
    hash_files image_files total i file_hashes w = (Ok file_hashes', printed w log)
    ∧ NoDup file_hashes'.*1
    ∧ ∀ p h, (p, h) ∈ file_hashes' →
        (p, h) ∈ file_hashes ∨ (p ∈ image_files ∧ open_and_hash p 8 = Ok h).
Proof.
  revert i file_hashes w.
  induction image_files as [|p rest IH]; intros i acc w Hnd.
  { exists [], acc. simpl. rewrite printed_nil. unfold ret. auto. }
  assert (∃ pre, (if decide (i `mod` 10 = 0)%nat
                  then print (ProcessingProgress i total) else ret tt) w
                 = (Ok tt, printed w pre)) as (pre & Hpre).
  { case_decide; [by exists [ProcessingProgress i total]|].
    exists []. by rewrite printed_nil. }
  cbn [hash_files]. unfold bind at 1. rewrite Hpre.
  unfold bind at 1. rewrite get_image_hash_run.
  destruct (open_and_hash p 8) as [h|e] eqn:Hdec.
  - destruct (IH (S i) (dict_setitem acc p h) (printed w pre))
      as (log & acc' & Hrun & Hnd' & Hin); [by apply dict_setitem_NoDup|].
    exists (pre ++ log), acc'. rewrite Hrun, printed_app. split_and!; [done..|].
    intros q hq [Hq|[Hq ?]]%Hin; [|right; set_solver].
    apply dict_setitem_elem in Hq as [[= -> ->]|?]; [right; set_solver|by left].
  - destruct (IH (S i) acc (printed w (pre ++ [ErrorProcessing p e])))
      as (log & acc' & Hrun & Hnd' & Hin); [done|].
    exists (pre ++ [ErrorProcessing p e] ++ log), acc'.
    rewrite printed_app, Hrun, printed_app, <- (assoc_L (++)).
    split_and!; [done..|].
    intros q hq [Hq|[Hq ?]]%Hin; [by left|right; set_solver].
Qed.

(** X8: the scan only reads: whatever the enumeration, the codec and the
    outcome (a result or an escaping exception), it leaves the files, the
    directories and the pending input as they were and only adds to what is
    printed. *)
Theorem find_duplicate_images_read_only folder_path similarity_threshold w :
  ∃ log,
    (find_duplicate_images folder_path similarity_threshold w).2 = printed w log.
Proof.
  unfold find_duplicate_images.
  destruct (hash_files_any (walk_image_files folder_path)
              (length (walk_image_files folder_path)) 1 []
              (printed w [FoundImageFiles (length (walk_image_files folder_path))]))
    as (log & file_hashes & Hrun & _); [constructor|].
  unfold bind at 1. rewrite print_run.
  unfold bind at 1. rewrite Hrun.
  unfold bind at 1. rewrite print_run.
  unfold bind, lift, ret. rewrite !printed_app.
  destruct (cluster _ _); simpl; eauto.
Qed.

(** X9: whatever the enumeration (repeated paths included), a result of
    [find_duplicate_images] names no path twice, as an original or as a
    duplicate, and every path it names is an enumerated file that decodes. *)
Theorem find_duplicate_images_each_file_once folder_path similarity_threshold w
    duplicates :
  (find_duplicate_images folder_path similarity_threshold w).1 = Ok duplicates →
  NoDup (originals duplicates ++ duplicate_paths duplicates)
  ∧ ∀ p, p ∈ originals duplicates ++ duplicate_paths duplicates →
      p ∈ walk_image_files folder_path ∧ ∃ h, open_and_hash p 8 = Ok h.
Proof.
  unfold find_duplicate_images.
  destruct (hash_files_any (walk_image_files folder_path)
              (length (walk_image_files folder_path)) 1 []
              (printed w [FoundImageFiles (length (walk_image_files folder_path))]))
    as (log & file_hashes & Hrun & Hnd & Hin); [constructor|].
  unfold bind at 1. rewrite print_run.
  unfold bind at 1. rewrite Hrun.
  unfold bind at 1. rewrite print_run.
  unfold bind, lift, ret.
  destruct (cluster similarity_threshold file_hashes) as [st|e] eqn:Hcl;
    simpl; [|done].
  intros [= <-]. unfold cluster in Hcl.
  assert (cluster_inv cluster_init file_hashes.*1) as Hinit.
  { repeat split; simpl; [constructor|set_solver..]. }
  destruct (scan_all_inv _ _ _ _ Hcl Hnd Hinit) as [Hnd' _].
  destruct (scan_all_members _ _ _ _ Hcl) as [Hmo Hmd]. simpl in *.
  split; [done|].
  intros p Hp.
  assert (p ∈ file_hashes.*1) as ([q h] & -> & Hq)%list_elem_of_fmap
    by (apply elem_of_app in Hp as [?%Hmo|?%Hmd]; set_solver).
  destruct (Hin _ _ Hq) as [?%elem_of_nil|[? ?]]; [done|]. simpl. eauto.
Qed.
End extraction_general.

(** ** The deletion plan *)

Lemma get_file_size_cases file_path w :
  (∃ size, get_file_size file_path w = (Ok size, w)
           ∧ (is_Some (files w !! file_path) ∨ file_path ∈ dirs w))
  ∨ (get_file_size file_path w = (Raise (OSError file_path), w)
     ∧ files w !! file_path = None ∧ file_path ∉ dirs w).
Proof.
  rewrite get_file_size_run. destruct (files w !! file_path) as [f|] eqn:Hf.
  - left. exists (st_size f). split; [done|]. left. by eexists.
  - case_decide; [left|right; by split_and!].
    eexists. split; [done|by right].
Qed.

Lemma list_dupes_result dupes files_to_delete w :
  ∃ log,
    (list_dupes dupes files_to_delete w).2 = printed w log
    ∧ match (list_dupes dupes files_to_delete w).1 with
      | Ok l =>
          l = files_to_delete ++ dupes.*1
          ∧ ∀ p, p ∈ dupes.*1 → is_Some (files w !! p) ∨ p ∈ dirs w
      | Raise e =>
          ∃ q, e = OSError q ∧ q ∈ dupes.*1
               ∧ files w !! q = None ∧ q ∉ dirs w
      end.
Proof.
  revert files_to_delete w. induction dupes as [|[dupe_path distance] dupes IH];
    intros acc w.
  { exists []. simpl. rewrite printed_nil, app_nil_r. split_and!; [done..|].
    by intros p ?%elem_of_nil. }
  cbn [list_dupes]. rewrite bind_run, print_run, bind_run.
  destruct (get_file_size_cases dupe_path (printed w [DupePath dupe_path]))
    as [(size & -> & Hthere)|(-> & Hnone & Hnodir)]; cbn [files dirs printed] in *.
  2:{ exists [DupePath dupe_path]. simpl. split; [done|].
      exists dupe_path. set_solver. }
  rewrite bind_run, print_run, bind_run, print_run. rewrite !printed_app.
  destruct (IH (acc ++ [dupe_path])
              (printed w ([DupePath dupe_path] ++ [DupeSize size]
                          ++ [DupeDistance distance]))) as (log & Hw & Hr).
  destruct (list_dupes dupes (acc ++ [dupe_path]) _) as [r w2];
    simpl in Hw, Hr; subst w2.
  eexists. rewrite printed_app. split; [done|]. simpl.
  destruct r as [l|e].
  - destruct Hr as [-> Hall]. rewrite <- (assoc_L (++)). split; [done|].
    intros p [->|?]%elem_of_cons; [done|by apply Hall].
  - destruct Hr as (q & -> & ? & ? & ?). exists q. set_solver.
Qed.

Lemma list_groups_result duplicates files_to_delete w :
  ∃ log,
    (list_groups duplicates files_to_delete w).2 = printed w log
    ∧ match (list_groups duplicates files_to_delete w).1 with
      | Ok l =>
          l = files_to_delete ++ duplicate_paths duplicates
          ∧ ∀ p, p ∈ originals duplicates ++ duplicate_paths duplicates →
                 is_Some (files w !! p) ∨ p ∈ dirs w
      | Raise e =>
          ∃ q, e = OSError q
               ∧ q ∈ originals duplicates ++ duplicate_paths duplicates
               ∧ files w !! q = None ∧ q ∉ dirs w
      end.
Proof.
  revert files_to_delete w.
  induction duplicates as [|[original dupes] duplicates IH]; intros acc w.
  { exists []. simpl. rewrite printed_nil, app_nil_r. split_and!; [done..|].
    by intros p ?%elem_of_nil. }
  unfold originals, duplicate_paths in *. rewrite !fmap_cons. cbn [mjoin list_join fst snd].
  cbn [list_groups]. rewrite bind_run, print_run, bind_run.
  destruct (get_file_size_cases original (printed w [OriginalLine original]))
    as [(size & -> & Hthere)|(-> & Hnone & Hnodir)]; cbn [files dirs printed] in *.
  2:{ exists [OriginalLine original]. simpl. split; [done|].
      exists original. set_solver. }
  rewrite bind_run, print_run, bind_run, print_run, bind_run, !printed_app.
  set (w1 := printed w _).
  destruct (list_dupes_result dupes acc w1) as (log1 & Hw1 & Hr1).
  destruct (list_dupes dupes acc w1) as [[l1|e1] w2]; simpl in Hw1, Hr1; subst w2.
  2:{ eexists. unfold w1. rewrite printed_app. split; [done|]. simpl.
      destruct Hr1 as (q & -> & ? & ? & ?). exists q. set_solver. }
  destruct Hr1 as [-> Hall1].
  destruct (IH (acc ++ dupes.*1) (printed w1 log1)) as (log & Hw & Hr).
  destruct (list_groups duplicates (acc ++ dupes.*1) (printed w1 log1))
    as [r w2]; simpl in Hw, Hr; subst w2.
  eexists. unfold w1. rewrite !printed_app. split; [done|]. simpl.
  destruct r as [l|e].
  - destruct Hr as [-> Hall]. rewrite <- (assoc_L (++)). split; [done|].
    intros p Hp. rewrite elem_of_cons, !elem_of_app in Hp. simpl in Hall.
    destruct Hp as [->|[?|[?|?]]]; [done|apply Hall|by apply Hall1|apply Hall];
      set_solver.
  - destruct Hr as (q & -> & Hq & ? & ?). exists q. split_and!; [done| |done..].
    rewrite elem_of_cons, !elem_of_app. rewrite elem_of_app in Hq. tauto.
Qed.

Lemma deleted_paths_listed files_to_delete log p :
  Forall2 deletion_report files_to_delete log →
  p ∈ omap deleted_path log → p ∈ files_to_delete.
Proof.
  induction 1 as [|file_path ev l log' Hrep _ IH]; simpl.
  { by intros ?%elem_of_nil. }
  destruct Hrep as [->|[e ->]]; simpl; [|set_solver].
  intros [->|?]%elem_of_cons; set_solver.
Qed.

Lemma delete_files_frame files_to_delete w p :
  p ∉ files_to_delete →
  files (delete_files files_to_delete w).2 !! p = files w !! p.
Proof.
  intros Hp.
  destruct (remove_files_run files_to_delete 0 0 w)
    as (log & w' & Hrun & _ & Hrep & _ & _ & Hsame).
  unfold delete_files. rewrite bind_run, Hrun.
  repeat (rewrite bind_run, print_run; cbv beta iota). rewrite print_run.
  simpl. apply Hsame. intros Hin. by eapply Hp, deleted_paths_listed.
Qed.

Lemma confirm_files interactive n w :
  files (confirm interactive n w).2 = files w.
Proof.
  unfold confirm. destruct interactive; [|done].
  rewrite bind_run. unfold input. destruct (stdin w); simpl; [done|].
  case_decide; [done|]. by rewrite bind_run, print_run.
Qed.

Lemma delete_duplicates_frame duplicates interactive w p :
  p ∉ duplicate_paths duplicates →
  files (delete_duplicates duplicates interactive w).2 !! p = files w !! p.
Proof.
  intros Hp. unfold delete_duplicates. case_decide; [done|].
  repeat (rewrite bind_run, print_run; cbv beta iota). rewrite bind_run.
  match goal with |- context [list_groups duplicates [] ?w1] => set (w0 := w1) end.
  destruct (list_groups_result duplicates [] w0) as (log & Hw & Hr).
  destruct (list_groups duplicates [] w0) as [[l|e] w1]; simpl in Hw, Hr;
    subst w1; [|done].
  destruct Hr as [-> _]. simpl.
  rewrite bind_run, print_run, bind_run.
  set (w1 := printed (printed w0 log) [RuleEquals]).
  pose proof (confirm_files interactive (length (duplicate_paths duplicates)) w1)
    as Hc.
  destruct (confirm interactive _ w1) as [[[|]|e] w2]; simpl in Hc.
  - rewrite delete_files_frame by done. by rewrite Hc.
  - simpl. by rewrite Hc.
  - simpl. by rewrite Hc.
Qed.

(** X10: whatever the plan, the mode, the answer and the state of the
    files, [delete_duplicates] leaves alone every file that the plan does not
    list as a duplicate; the originals of a plan that lists none of them as a
    duplicate are never removed. *)
Theorem delete_duplicates_only_duplicates duplicates interactive w p :
  p ∉ duplicate_paths duplicates →
  files (delete_duplicates duplicates interactive w).2 !! p = files w !! p.
Proof. intros Hp. by apply delete_duplicates_frame. Qed.


(** ** Going through with the deletion *)



Lemma remove_files_files_only files_to_delete deleted_count total_size_freed w1 w2 :
  files w1 = files w2 →
  (remove_files files_to_delete deleted_count total_size_freed w1).1
  = (remove_files files_to_delete deleted_count total_size_freed w2).1
  ∧ files (remove_files files_to_delete deleted_count total_size_freed w1).2
    = files (remove_files files_to_delete deleted_count total_size_freed w2).2.
Proof.
  revert deleted_count total_size_freed w1 w2.
  induction files_to_delete as [|file_path rest IH]; intros dc ts w1 w2 Hf; [done|].
  cbn [remove_files]. rewrite !bind_run, !remove_one_run, Hf.
  destruct (files w2 !! file_path) as [f|]; [destruct (removable f)|];
    apply IH; simpl; by rewrite ?Hf.
Qed.

Lemma delete_files_files_only files_to_delete w1 w2 :
  files w1 = files w2 →
  (delete_files files_to_delete w1).1 = (delete_files files_to_delete w2).1
  ∧ files (delete_files files_to_delete w1).2
    = files (delete_files files_to_delete w2).2.
Proof.
  intros Hf. unfold delete_files. rewrite !bind_run.
  destruct (remove_files_files_only files_to_delete 0 0 w1 w2 Hf) as [Hr Hw].
  destruct (remove_files files_to_delete 0 0 w1) as [[c1|e1] w1'];
    destruct (remove_files files_to_delete 0 0 w2) as [[c2|e2] w2'];
    simpl in Hr, Hw; simplify_eq; [|done].
  unfold bind, print. simpl. done.
Qed.

Lemma delete_duplicates_run duplicates interactive w :
  sum_list (length <$> duplicates.*2) ≠ 0%nat →
  delete_duplicates duplicates interactive w
  = match list_groups duplicates []
            (printed w [FoundDuplicates (sum_list (length <$> duplicates.*2))
                          (length duplicates);
                        DuplicateGroupsHeader; RuleDashes]) with
    | (Ok l, w1) =>
        match confirm interactive (length l) (printed w1 [RuleEquals]) with
        | (Ok true, w2) => delete_files l w2
        | (Ok false, w2) => (Ok tt, w2)
        | (Raise e, w2) => (Raise e, w2)
        end
    | (Raise e, w1) => (Raise e, w1)
    end.
Proof.
  intros Hsum. unfold delete_duplicates. rewrite decide_False by done.
  repeat (rewrite bind_run, print_run; cbv beta iota). rewrite bind_run.
  rewrite !printed_app. simpl.
  destruct (list_groups duplicates [] _) as [[l|e] w1]; [|done].
  rewrite bind_run, print_run, bind_run.
  by destruct (confirm interactive (length l) _) as [[[|]|e] w2].
Qed.

(** X13: in interactive mode an answer that reads [yes] or [y] once
    stripped and lowercased has the outcome of automatic mode: the same
    result and the same files afterwards. *)
Theorem delete_duplicates_confirmed duplicates w response rest :
  stdin w = response :: rest →
  lower (strip response) ∈ ["yes"; "y"] →
  (delete_duplicates duplicates true w).1 = (delete_duplicates duplicates false w).1
  ∧ files (delete_duplicates duplicates true w).2
    = files (delete_duplicates duplicates false w).2.
Proof.
  intros Hin Hyes.
  destruct (decide (sum_list (length <$> duplicates.*2) = 0%nat)) as [Hz|Hnz].
  { unfold delete_duplicates. by rewrite !decide_True by done. }
  rewrite !delete_duplicates_run by done.
  set (w0 := printed w _).
  destruct (list_groups_result duplicates [] w0) as (log & Hw & _).
  destruct (list_groups duplicates [] w0) as [[l|e] w1]; simpl in Hw;
    subst w1; [|done].
  cbn [confirm ret]. rewrite bind_run. unfold input. simpl. rewrite Hin.
  rewrite decide_True by done. simpl.
  by apply delete_files_files_only.
Qed.

(** ** The optional arguments and the exits of [main] *)

(** [int] on white space and digits: the separators 0x1c-0x1f are no white
    space to it, the white space outside ASCII is, the decimal digits outside
    ASCII count as digits, and more than 4300 digits are refused. *)
Example int_samples :
  int (unit_separator +:+ "3") = Raise (ValueError (unit_separator +:+ "3"))
  ∧ int (no_break_space +:+ "3" +:+ next_line) = Ok 3
  ∧ int (fullwidth_seven +:+ arabic_indic_three) = Ok 73
  ∧ int " -1_000 " = Ok (-1000)
  ∧ int "1__0" = Raise (ValueError "1__0")
  ∧ int "+ 3" = Raise (ValueError "+ 3")
  ∧ int (zeros 4300) = Ok 0
  ∧ int (zeros 4301) = Raise (ValueError (zeros 4301)).
Proof. split_and!; by_computation. Qed.

(** X14: for optional arguments written in ASCII, the loop over them never
    fails; the threshold it ends with is the last argument that [int]
    accepts, or the one it started with when there is none; the mode is
    interactive only if it started so and no argument is [--auto]; and one
    warning is printed for each other argument, in order.  (Which digits
    outside ASCII [int] reads depends on the Unicode tables of the
    interpreter; on ASCII arguments they play no part.) *)
Theorem parse_optional_settings args similarity_threshold interactive w :
  Forall (λ arg, isascii arg = true) args →
  parse_optional args similarity_threshold interactive w
  = (Ok (default similarity_threshold (last (omap threshold_of args)),
         interactive && negb (bool_decide ("--auto" ∈ args))),
     printed w (InvalidThresholdWarning <$> filter refused args)).
Proof.
  intros _.
  revert similarity_threshold interactive w.
  induction args as [|arg rest IH]; intros t i w.
  { simpl. rewrite printed_nil. unfold ret. by destruct i. }
  cbn [parse_optional]. rewrite filter_cons. cbn [omap list_omap].
  destruct (decide (arg = "--auto")) as [->|Hauto].
  - assert (refused "--auto" = false) as ->
      by (apply bool_decide_eq_false; intros [? _]; done).
    assert (threshold_of "--auto" = None) as -> by done.
    rewrite (bool_decide_true ("--auto" ∈ "--auto" :: rest)) by set_solver.
    rewrite IH. simpl. by rewrite andb_false_r.
  - assert (bool_decide ("--auto" ∈ arg :: rest) = bool_decide ("--auto" ∈ rest))
      as -> by (apply bool_decide_ext; set_solver).
    unfold refused, threshold_of. rewrite !(decide_False (P := arg = "--auto")) by done.
    destruct (int arg) as [n|e] eqn:Hint.
    + rewrite (bool_decide_false (arg ≠ "--auto" ∧ _)) by (intros [_ ?]; done).
      simpl.
      rewrite IH. do 2 f_equal.
      rewrite last_cons. by destruct (last _).
    + rewrite (int_raises_ValueError _ _ Hint).
      rewrite (bool_decide_true (arg ≠ "--auto" ∧ _)) by done. simpl.
      by rewrite bind_run, print_run, IH, printed_app.
Qed.

Section main_facts.
Context {image hash : Type} {ext : Collaborators image hash} {sub : HashSub hash}.

Lemma find_duplicate_images_run folder_path similarity_threshold w :
  ∃ log file_hashes,
    find_duplicate_images folder_path similarity_threshold w
    = ((st <- cluster similarity_threshold file_hashes ;;
        Ok (duplicates st))%result, printed w log)
    ∧ NoDup file_hashes.*1
    ∧ ∀ p h, (p, h) ∈ file_hashes →
        p ∈ walk_image_files folder_path ∧ open_and_hash p 8 = Ok h.
Proof.
  unfold find_duplicate_images.
  destruct (hash_files_any (walk_image_files folder_path)
              (length (walk_image_files folder_path)) 1 []
              (printed w [FoundImageFiles (length (walk_image_files folder_path))]))
    as (log & file_hashes & Hrun & Hnd & Hin); [constructor|].
  unfold bind at 1. rewrite print_run.
  unfold bind at 1. rewrite Hrun.
  unfold bind at 1. rewrite print_run.
  unfold bind, lift, ret. rewrite !printed_app.
  eexists _, file_hashes. split_and!; [by destruct (cluster _ _)|done|].
  intros p h [?%elem_of_nil|?]%Hin; done.
Qed.


(** X16: whatever the arguments, the answers and the state of the files, a
    run of [main] changes no file but images of the folder that the walk
    enumerated and that decoded. *)
Theorem main_changes_only_decoded_images argv w p :
  files (main argv w).2 !! p ≠ files w !! p →
  ∃ folder_path,
    argv !! 1%nat = Some folder_path
    ∧ p ∈ walk_image_files folder_path
    ∧ ∃ h, open_and_hash p 8 = Ok h.
Proof.
  unfold main.
  destruct argv as [|prog [|folder_path args]]; simpl; [done..|].
  destruct (os_path_exists w folder_path); simpl; [|done].
  destruct (os_path_isdir w folder_path); simpl; [|done].
  intros Hchanged. exists folder_path. split; [done|].
  assert (files (scan_and_delete folder_path args w).2 !! p ≠ files w !! p)
    as Hsd by (by destruct (scan_and_delete _ _ _) as [[?|?] ?]).
  clear Hchanged. revert Hsd. unfold scan_and_delete. rewrite bind_run.
  destruct (parse_optional_returns args 5 true w) as ([t i] & log0 & ->).
  repeat (rewrite bind_run, print_run; cbv beta iota). rewrite bind_run.
  rewrite !printed_app. simpl.
  match goal with |- context [find_duplicate_images _ _ ?w1] => set (w0 := w1) end.
  destruct (find_duplicate_images_run folder_path t w0)
    as (log & file_hashes & -> & Hnd & Hin).
  destruct (cluster t file_hashes) as [st|e] eqn:Hcl; simpl; [|done].
  intros Hchanged.
  destruct (decide (p ∈ duplicate_paths (duplicates st))) as [Hp|Hp].
  2:{ destruct Hchanged. by rewrite delete_duplicates_frame. }
  destruct (scan_all_members _ _ _ _ Hcl) as [_ Hmd]. simpl in Hmd.
  assert (p ∈ file_hashes.*1) as ([q h] & -> & Hq)%list_elem_of_fmap
    by set_solver.
  destruct (Hin _ _ Hq). simpl. eauto.
Qed.
End main_facts.

(** ** The extension filter *)

Lemma rfind_app c s1 s2 j :
  rfind c s2 = Some j → rfind c (s1 +:+ s2) = Some (String.length s1 + j)%nat.
Proof. intros Hj. induction s1 as [|x s1 IH]; simpl; [done|]. by rewrite IH. Qed.

Lemma rfind_bound c s i : rfind c s = Some i → (i < String.length s)%nat.
Proof.
  revert i. induction s as [|x s IH]; simpl; intros i; [done|].
  destruct (rfind c s) as [j|].
  - intros [= <-]. specialize (IH j eq_refl). lia.
  - case_decide; intros [= <-]. lia.
Qed.

Lemma substring_all s : String.substring 0 (String.length s) s = s.
Proof. induction s as [|x s IH]; simpl; [done|]. by rewrite IH. Qed.

Lemma substring_app_r s1 s2 :
  String.substring (String.length s1) (String.length s2) (s1 +:+ s2) = s2.
Proof. induction s1 as [|x s1 IH]; simpl; [apply substring_all|done]. Qed.

Lemma substring_split s i :
  (i ≤ String.length s)%nat →
  s = String.substring 0 i s
      +:+ String.substring i (String.length s - i) s.
Proof.
  revert i. induction s as [|x s IH]; intros i Hi; simpl in Hi.
  - assert (i = 0%nat) as -> by lia. done.
  - destruct i as [|i]; simpl.
    + by rewrite substring_all.
    + change (String x s
              = String x (String.substring 0 i s
                          +:+ String.substring i (String.length s - i) s)).
      f_equal. apply IH. lia.
Qed.

Lemma substring_prefix_length s i :
  (i ≤ String.length s)%nat → String.length (String.substring 0 i s) = i.
Proof.
  revert i. induction s as [|x s IH]; intros i Hi; simpl in Hi.
  - assert (i = 0%nat) as -> by lia. done.
  - destruct i as [|i]; simpl; [done|]. rewrite IH by lia. done.
Qed.

Lemma length_append s1 s2 :
  String.length (s1 +:+ s2) = (String.length s1 + String.length s2)%nat.
Proof.
  induction s1 as [|x s1 IH]; [done|].
  change (S (String.length (s1 +:+ s2))
          = S (String.length s1 + String.length s2)). by rewrite IH.
Qed.

Lemma lower_ascii_dot c : lower_ascii c = "."%char ↔ c = "."%char.
Proof.
  split; [|by intros ->].
  destruct c as [[] [] [] [] [] [] [] []]; vm_compute; congruence.
Qed.

Lemma lower_length s : String.length (lower s) = String.length s.
Proof. induction s as [|x s IH]; simpl; [done|]. by rewrite IH. Qed.

Lemma lower_app s1 s2 : lower (s1 +:+ s2) = lower s1 +:+ lower s2.
Proof. induction s1 as [|x s1 IH]; simpl; [done|]. by rewrite IH. Qed.

Lemma rfind_dot_lower s : rfind "." (lower s) = rfind "." s.
Proof.
  induction s as [|x s IH]; simpl; [done|]. rewrite IH.
  destruct (rfind "." s); [done|].
  destruct (decide (x = "."%char)) as [->|Hne]; [done|].
  rewrite decide_False; [done|]. by rewrite lower_ascii_dot.
Qed.

Lemma image_extensions_shape e :
  e ∈ image_extensions → rfind "." e = Some 0%nat ∧ (2 ≤ String.length e)%nat.
Proof.
  unfold image_extensions. rewrite !elem_of_cons, elem_of_nil.
  intros [->|[->|[->|[->|[->|[->|[->|[]]]]]]]]; vm_compute; split; (done || lia).
Qed.

(** X17: a file name passes the test of line 48 exactly when it is a
    non-empty stem followed by one of the seven extensions of line 43 written
    in any mix of upper and lower case; so [IMG.JPG] passes, and a name that is
    only an extension, such as [.png], does not. *)
Theorem has_image_extension_spec file :
  has_image_extension file = true ↔
  ∃ stem ext, file = stem +:+ ext ∧ stem ≠ EmptyString
              ∧ lower ext ∈ image_extensions.
Proof.
  unfold has_image_extension. rewrite bool_decide_eq_true. split.
  - unfold path_suffix. intros Hin.
    destruct (rfind "." file) as [i|] eqn:Hi; [|by vm_compute in Hin; set_solver].
    case_decide as Hrange; [|by vm_compute in Hin; set_solver].
    pose proof (rfind_bound _ _ _ Hi).
    exists (String.substring 0 i file),
      (String.substring i (String.length file - i) file).
    split_and!; [apply substring_split; lia| |done].
    intros Hempty. pose proof (substring_prefix_length file i ltac:(lia)) as Hlen.
    rewrite Hempty in Hlen. simpl in Hlen. lia.
  - intros (stem & ext & -> & Hstem & Hext).
    destruct (image_extensions_shape _ Hext) as [Hdot Hlen].
    rewrite rfind_dot_lower in Hdot. rewrite lower_length in Hlen.
    unfold path_suffix. rewrite (rfind_app _ stem ext 0 Hdot).
    assert (String.length (stem +:+ ext) = String.length stem + String.length ext)%nat
      as Happ by apply length_append.
    rewrite Happ, Nat.add_0_r.
    assert (0 < String.length stem)%nat by (destruct stem; simpl; [done|lia]).
    rewrite decide_True by lia.
    replace (String.length stem + String.length ext - String.length stem)%nat
      with (String.length ext) by lia.
    by rewrite substring_app_r.
Qed.

(** ** The further properties on the sample data *)

Ltac decide_true := apply (bool_decide_unpack _); vm_compute; exact I.

Lemma cluster_duplicates_within_threshold_witness :
  cluster 3 four_files = Ok four_files_state
  ∧ ("a.jpg", [("b.jpg", 3)]) ∈ duplicates four_files_state
  ∧ ("b.jpg", 3) ∈ [("b.jpg", 3)]
  ∧ ∃ hash1 hash2,
      precedes ("a.jpg", hash1) ("b.jpg", hash2) four_files
      ∧ hamming_distance hash1 hash2 = Ok 3 ∧ 3 ≤ 3.
Proof.
  assert (cluster 3 four_files = Ok four_files_state) as Hrun by by_computation.
  assert (("a.jpg", [("b.jpg", 3)]) ∈ duplicates four_files_state) as Hin
    by (vm_compute; apply list_elem_of_here).
  assert (("b.jpg", 3) ∈ [("b.jpg", 3)]) as Hd by apply list_elem_of_here.
  split_and!; [done..|].
  exact (cluster_duplicates_within_threshold 3 four_files four_files_state
           "a.jpg" [("b.jpg", 3)] "b.jpg" 3 Hrun Hin Hd).
Defined.

Lemma cluster_survivors_beyond_threshold_witness :
  cluster 3 four_files = Ok four_files_state
  ∧ precedes ("a.jpg", fingerprint [0; 1; 2]%nat) ("c.jpg", fingerprint [3; 4]%nat)
      four_files
  ∧ ("a.jpg" ∉ duplicate_paths (duplicates four_files_state))
  ∧ ("c.jpg" ∉ duplicate_paths (duplicates four_files_state))
  ∧ ∃ distance,
      hamming_distance (fingerprint [0; 1; 2]%nat) (fingerprint [3; 4]%nat)
      = Ok distance ∧ 3 < distance.
Proof.
  assert (cluster 3 four_files = Ok four_files_state) as Hrun by by_computation.
  assert (precedes ("a.jpg", fingerprint [0; 1; 2]%nat)
            ("c.jpg", fingerprint [3; 4]%nat) four_files) as Hprec.
  { by exists [], [("b.jpg", fingerprint [])], [("e.jpg", fingerprint [4; 5]%nat)]. }
  assert ("a.jpg" ∉ duplicate_paths (duplicates four_files_state)) as Ha
    by decide_true.
  assert ("c.jpg" ∉ duplicate_paths (duplicates four_files_state)) as Hc
    by decide_true.
  split_and!; [done..|].
  exact (cluster_survivors_beyond_threshold 3 four_files four_files_state
           "a.jpg" _ "c.jpg" _ Hrun Hprec Ha Hc).
Defined.

Lemma cluster_refines_greedy_witness :
  NoDup four_files.*1
  ∧ cluster 3 four_files = Ok four_files_state
  ∧ duplicates four_files_state = greedy_clusters 3 four_files ∅.
Proof.
  assert (NoDup four_files.*1) as Hnd by decide_true.
  assert (cluster 3 four_files = Ok four_files_state) as Hrun by by_computation.
  split_and!; [done..|].
  exact (cluster_refines_greedy 3 four_files four_files_state Hnd Hrun).
Defined.

Lemma cluster_no_empty_cluster_witness :
  cluster 3 four_files = Ok four_files_state
  ∧ (∀ original dupes,
       (original, dupes) ∈ duplicates four_files_state → dupes ≠ [])
  ∧ (sum_list (length <$> (duplicates four_files_state).*2) = 0%nat
     ↔ duplicates four_files_state = []).
Proof.
  assert (cluster 3 four_files = Ok four_files_state) as Hrun by by_computation.
  split; [done|].
  exact (cluster_no_empty_cluster 3 four_files four_files_state Hrun).
Defined.

Lemma cluster_in_enumeration_order_witness :
  NoDup four_files.*1
  ∧ cluster 3 four_files = Ok four_files_state
  ∧ originals (duplicates four_files_state) `sublist_of` four_files.*1
  ∧ ∀ original dupes, (original, dupes) ∈ duplicates four_files_state →
      original :: dupes.*1 `sublist_of` four_files.*1.
Proof.
  assert (NoDup four_files.*1) as Hnd by decide_true.
  assert (cluster 3 four_files = Ok four_files_state) as Hrun by by_computation.
  split_and!; [done..| |];
    apply (cluster_in_enumeration_order 3 four_files four_files_state Hnd Hrun).
Defined.

Lemma cluster_same_hash_together_witness :
  NoDup files_with_copy.*1
  ∧ cluster 0 files_with_copy = Ok files_with_copy_state
  ∧ hamming_distance (fingerprint [1%nat]) (fingerprint [1%nat]) = Ok 0
  ∧ ∃ original dupes,
      (original, dupes) ∈ duplicates files_with_copy_state
      ∧ "x.png" ∈ original :: dupes.*1 ∧ "x_copy.png" ∈ original :: dupes.*1.
Proof.
  assert (NoDup files_with_copy.*1) as Hnd by decide_true.
  assert (cluster 0 files_with_copy = Ok files_with_copy_state) as Hrun
    by by_computation.
  assert (hamming_distance (fingerprint [1%nat]) (fingerprint [1%nat]) = Ok 0)
    as Hself by by_computation.
  split_and!; [done..|].
  apply (cluster_same_hash_together 0 files_with_copy files_with_copy_state
           "x.png" "x_copy.png" (fingerprint [1%nat]) 0 Hnd Hrun);
    [apply list_elem_of_here
    |apply list_elem_of_further, list_elem_of_further, list_elem_of_here
    |done|exact Hself|lia].
Defined.

Lemma cluster_none_iff_all_beyond_witness :
  cluster 0 two_files = Ok two_files_state
  ∧ (duplicates two_files_state = [] ↔
     ∀ r1 r2, precedes r1 r2 two_files →
       ∃ distance, hamming_distance r1.2 r2.2 = Ok distance ∧ 0 < distance).
Proof.
  assert (cluster 0 two_files = Ok two_files_state) as Hrun by by_computation.
  split; [done|].
  exact (cluster_none_iff_all_beyond 0 two_files two_files_state Hrun).
Defined.

Lemma find_duplicate_images_each_file_once_witness :
  (find_duplicate_images (ext := sample_collaborators) "photos" 3 sample_world).1
  = Ok [("photos/1.jpg", [("photos/2.jpg", 1); ("photos/4.jpg", 0)])]
  ∧ NoDup ["photos/1.jpg"; "photos/2.jpg"; "photos/4.jpg"].
Proof.
  assert ((find_duplicate_images (ext := sample_collaborators)
             "photos" 3 sample_world).1
          = Ok [("photos/1.jpg", [("photos/2.jpg", 1); ("photos/4.jpg", 0)])])
    as Hrun by by_computation.
  split; [done|].
  apply (find_duplicate_images_each_file_once (ext := sample_collaborators)
           "photos" 3 sample_world _ Hrun).
Defined.

Lemma delete_duplicates_only_duplicates_witness :
  ("photos/1.jpg" ∉ duplicate_paths sample_plan)
  ∧ files (delete_duplicates sample_plan false sample_world).2 !! "photos/1.jpg"
    = files sample_world !! "photos/1.jpg".
Proof.
  assert ("photos/1.jpg" ∉ duplicate_paths sample_plan) as Hp by decide_true.
  split; [done|].
  exact (delete_duplicates_only_duplicates sample_plan false sample_world
           "photos/1.jpg" Hp).
Defined.



Lemma delete_duplicates_confirmed_witness :
  stdin sample_world_yes = [" Yes"]
  ∧ lower (strip " Yes") ∈ ["yes"; "y"]
  ∧ (delete_duplicates sample_plan true sample_world_yes).1
    = (delete_duplicates sample_plan false sample_world_yes).1
  ∧ files (delete_duplicates sample_plan true sample_world_yes).2
    = files (delete_duplicates sample_plan false sample_world_yes).2.
Proof.
  assert (lower (strip " Yes") ∈ ["yes"; "y"]) as Hyes by decide_true.
  split; [reflexivity|]. split; [exact Hyes|].
  exact (delete_duplicates_confirmed sample_plan sample_world_yes " Yes" []
           eq_refl Hyes).
Defined.

(** White space outside ASCII around the answer is stripped as well: the
    answer [padded_yes] reads [yes], and the duplicate is removed. *)
Example delete_duplicates_padded_yes :
  lower (strip padded_yes) = "yes"
  ∧ (delete_duplicates [("photos/1.jpg", [("photos/2.jpg", 1)])] true
       sample_world_padded_yes).1 = Ok tt
  ∧ files (delete_duplicates [("photos/1.jpg", [("photos/2.jpg", 1)])] true
             sample_world_padded_yes).2
    = delete "photos/2.jpg" (files sample_world).
Proof. split_and!; by_computation. Qed.

(** A directory in the plan has a size, so the plan is listed to its end;
    removing it fails, which the loop reports before it goes on. *)
Example delete_duplicates_folder_plan :
  ∃ w', delete_duplicates folder_plan false sample_world = (Ok tt, w')
        ∧ stdout w'
          = [FoundDuplicates 1 1; DuplicateGroupsHeader; RuleDashes;
             OriginalLine "photos/1.jpg"; OriginalSize 1000; DuplicatesCount 1;
             DupePath "photos"; DupeSize 4096; DupeDistance 2; RuleEquals;
             ErrorDeleting "photos" (OSError "photos");
             RuleEquals; SuccessfullyDeleted 0; TotalSpaceFreed 0]
        ∧ files w' = files sample_world.
Proof. eexists. split_and!; by_computation. Qed.

Lemma main_changes_only_decoded_images_witness :
  files (main (ext := sample_collaborators)
           ["imagefinder.py"; "photos"; "--auto"] sample_world).2 !! "photos/2.jpg"
  ≠ files sample_world !! "photos/2.jpg"
  ∧ ∃ folder_path,
      ["imagefinder.py"; "photos"; "--auto"] !! 1%nat = Some folder_path
      ∧ "photos/2.jpg" ∈ walk_image_files (Collaborators := sample_collaborators)
                          folder_path
      ∧ ∃ h, open_and_hash (ext := sample_collaborators) "photos/2.jpg" 8 = Ok h.
Proof.
  assert (files (main (ext := sample_collaborators)
                   ["imagefinder.py"; "photos"; "--auto"] sample_world).2
            !! "photos/2.jpg"
          ≠ files sample_world !! "photos/2.jpg") as Hchanged
    by (vm_compute; discriminate).
  split; [exact Hchanged|].
  exact (main_changes_only_decoded_images (ext := sample_collaborators)
           ["imagefinder.py"; "photos"; "--auto"] sample_world "photos/2.jpg"
           Hchanged).
Defined.

(** ** No answer, and no [--auto] *)

Lemma confirm_not_affirmative n w :
  match stdin w with
  | response :: _ => lower (strip response) ∉ ["yes"; "y"]
  | [] => True
  end →
  (confirm true n w).1 ≠ Ok true
  ∧ ((confirm true n w).1 = Raise EOFError ↔ stdin w = []).
Proof.
  unfold confirm. rewrite bind_run. unfold input.
  destruct (stdin w) as [|response rest]; simpl; [done|].
  intros Hno. rewrite decide_False by done.
  rewrite bind_run, print_run. simpl. split; [done|]. split; done.
Qed.


Lemma delete_duplicates_not_affirmative duplicates w :
  match stdin w with
  | response :: _ => lower (strip response) ∉ ["yes"; "y"]
  | [] => True
  end →
  files (delete_duplicates duplicates true w).2 = files w.
Proof.
  intros Hno.
  destruct (decide (sum_list (length <$> duplicates.*2) = 0%nat)) as [Hz|Hnz].
  { unfold delete_duplicates. by rewrite decide_True by done. }
  rewrite delete_duplicates_run by done.
  set (w0 := printed w _).
  destruct (list_groups_result duplicates [] w0) as (log & Hw & _).
  destruct (list_groups duplicates [] w0) as [[l|e] w1]; simpl in Hw; subst w1;
    [|done].
  pose proof (confirm_files true (length l) (printed (printed w0 log) [RuleEquals]))
    as Hf.
  destruct (confirm_not_affirmative (length l)
              (printed (printed w0 log) [RuleEquals])) as [Hgo _]; [done|].
  destruct (confirm true _ _) as [[[|]|e] w2]; simpl in *; [done|done..].
Qed.

Lemma parse_optional_stays_interactive args similarity_threshold w :
  "--auto" ∉ args →
  ∃ t log,
    parse_optional args similarity_threshold true w = (Ok (t, true), printed w log).
Proof.
  revert similarity_threshold w.
  induction args as [|arg rest IH]; intros t w Hauto.
  { exists t, []. by rewrite printed_nil. }
  cbn [parse_optional]. rewrite decide_False by set_solver.
  destruct (int arg) as [n|e] eqn:Hint; [apply IH; set_solver|].
  rewrite (int_raises_ValueError _ _ Hint), bind_run, print_run.
  destruct (IH t (printed w [InvalidThresholdWarning arg])) as (t' & log & ->);
    [set_solver|].
  exists t', ([InvalidThresholdWarning arg] ++ log). by rewrite printed_app.
Qed.

Section main_interactive.
Context {image hash : Type} {ext : Collaborators image hash} {sub : HashSub hash}.

(** X19: a run of [main] without [--auto] among its arguments changes no
    file unless the first line of input reads [yes] or [y] once stripped of
    its white space (that of Unicode, as [str.strip] takes it) and
    lowercased; with no input at all it changes none either. *)
Theorem main_without_auto_needs_yes argv w :
  "--auto" ∉ drop 2 argv →
  match stdin w with
  | response :: _ => lower (strip response) ∉ ["yes"; "y"]
  | [] => True
  end →
  files (main argv w).2 = files w.
Proof.
  intros Hauto Hno. unfold main.
  destruct argv as [|prog [|folder_path args]]; simpl; [done..|].
  destruct (os_path_exists w folder_path); simpl; [|done].
  destruct (os_path_isdir w folder_path); simpl; [|done].
  enough (files (scan_and_delete folder_path args w).2 = files w)
    by (by destruct (scan_and_delete _ _ _) as [[?|?] ?]).
  unfold scan_and_delete. rewrite bind_run. simpl in Hauto.
  destruct (parse_optional_stays_interactive args 5 w Hauto) as (t & log0 & ->).
  repeat (rewrite bind_run, print_run; cbv beta iota). rewrite bind_run.
  rewrite !printed_app. simpl.
  match goal with |- context [find_duplicate_images _ _ ?w1] => set (w0 := w1) end.
  destruct (find_duplicate_images_run folder_path t w0)
    as (log & file_hashes & -> & _).
  destruct (cluster t file_hashes) as [st|e]; simpl; [|done].
  by rewrite delete_duplicates_not_affirmative.
Qed.
End main_interactive.

(** ** A threshold that reaches every record *)

Section all_in_one.
Context {hash : Type} {sub : HashSub hash}.
Variable similarity_threshold : Z.

Lemma claimed_by_all hash1 (later : list (string * hash)) :
  (∀ p h, (p, h) ∈ later →
     ∃ d, hash_sub hash1 h = Ok d ∧ d ≤ similarity_threshold) →
  (claimed_by similarity_threshold hash1 ∅ later).*1 = later.*1.
Proof.
  unfold claimed_by. induction later as [|[p h] later IH]; intros Hall; [done|].
  destruct (Hall p h) as (d & Hd & Hle); [set_solver|].
  cbn [omap list_omap]. simpl. rewrite decide_False by set_solver.
  rewrite Hd, decide_True by done. rewrite !fmap_cons. simpl.
  f_equal. apply IH. intros q hq Hq. apply (Hall q hq). set_solver.
Qed.

Lemma greedy_clusters_taken (file_list : list (string * hash)) (taken : gset string) :
  (∀ p, p ∈ file_list.*1 → p ∈ taken) →
  greedy_clusters similarity_threshold file_list taken = [].
Proof.
  induction file_list as [|[p h] later IH]; intros Hall; simpl; [done|].
  rewrite decide_True by set_solver. apply IH. set_solver.
Qed.

(** X20: on records with distinct paths, when the first record is within
    the threshold of every later one and there is a later one, the result is
    the single cluster of the first record, with all the other records as its
    duplicates in enumeration order. *)
Theorem cluster_first_claims_all file1 hash1 (later : list (string * hash)) :
  NoDup (file1 :: later.*1) → later ≠ [] →
  (∀ p h, (p, h) ∈ later →
     ∃ d, hash_sub hash1 h = Ok d ∧ d ≤ similarity_threshold) →
  ∃ st, cluster similarity_threshold ((file1, hash1) :: later) = Ok st
        ∧ originals (duplicates st) = [file1]
        ∧ duplicate_paths (duplicates st) = later.*1.
Proof.
  intros Hnd Hne Hall.
  destruct (scan_later_absorb similarity_threshold file1 hash1 later cluster_init)
    as (st & Hin & Hp & _); [|by left|].
  { intros h ([p h'] & -> & Hh)%list_elem_of_fmap. by apply (Hall p h'). }
  assert (cluster similarity_threshold ((file1, hash1) :: later) = Ok st) as Hrun.
  { unfold cluster. simpl. rewrite decide_False by set_solver. rewrite Hin. simpl.
    apply scan_all_skip. auto. }
  exists st. split; [done|].
  apply scan_all_exact in Hrun; [|done|simpl; set_solver].
  simpl in Hrun. rewrite decide_False in Hrun by set_solver.
  pose proof (claimed_by_all hash1 later Hall) as Hcl.
  rewrite greedy_clusters_taken in Hrun.
  2:{ intros p Hp'. rewrite Hcl. set_solver. }
  rewrite app_nil_r in Hrun. rewrite Hrun.
  destruct (claimed_by similarity_threshold hash1 ∅ later) as [|c cl] eqn:Hc.
  { destruct later; [done|]. simpl in Hcl. done. }
  unfold originals, duplicate_paths. simpl. by rewrite app_nil_r.
Qed.
End all_in_one.


Lemma main_without_auto_needs_yes_witness :
  ("--auto" ∉ drop 2 ["imagefinder.py"; "photos"; "3"])
  ∧ (lower (strip " No ") ∉ ["yes"; "y"])
  ∧ files (main (ext := sample_collaborators)
             ["imagefinder.py"; "photos"; "3"] sample_world).2
    = files sample_world.
Proof.
  assert ("--auto" ∉ drop 2 ["imagefinder.py"; "photos"; "3"]) as Hauto
    by decide_true.
  assert (lower (strip " No ") ∉ ["yes"; "y"]) as Hno by decide_true.
  split_and!; [done..|].
  exact (main_without_auto_needs_yes (ext := sample_collaborators)
           ["imagefinder.py"; "photos"; "3"] sample_world Hauto Hno).
Defined.

Lemma parse_optional_settings_witness :
  Forall (λ arg, isascii arg = true) sample_args
  ∧ parse_optional sample_args 5 true sample_world
    = (Ok (10, false), printed sample_world [InvalidThresholdWarning "abc"]).
Proof.
  assert (Forall (λ arg, isascii arg = true) sample_args) as Hascii
    by (repeat constructor).
  split; [exact Hascii|].
  exact (parse_optional_settings sample_args 5 true sample_world Hascii).
Defined.

Lemma cluster_first_claims_all_witness :
  NoDup ["a.jpg"; "b.jpg"]
  ∧ ∃ st, cluster 5 two_files = Ok st
          ∧ originals (duplicates st) = ["a.jpg"]
          ∧ duplicate_paths (duplicates st) = ["b.jpg"].
Proof.
  assert (NoDup ["a.jpg"; "b.jpg"]) as Hnd by decide_true.
  split; [done|].
  apply (cluster_first_claims_all 5 "a.jpg" (fingerprint [])
           [("b.jpg", fingerprint [0; 1; 2]%nat)] Hnd); [done|].
  intros p h [= -> ->]%list_elem_of_singleton.
  exists 3. split; [by_computation|lia].
Defined.
